(** * Unique request counter: a shallow embedding of [main.go]

    The service accepts integer identifiers over HTTP, records each one in a
    Redis store with a one-minute expiry ([SetNX]), and once a minute reports
    the number of tracked identifiers to Kafka and to a log file before
    deleting the keys it counted.

    The Go functions [parseID], [trackUniqueRequest], [triggerEndpoint],
    [RequestHandler] and [LogUniqueRequests] are transcribed as functions over
    an explicit world state.  Every call that leaves the process (Redis,
    HTTP, Kafka, the log file) takes the answer of the outside world as an
    argument, so that both the success and the error branch of the Go code
    can be exercised. *)

From Stdlib Require Import ZArith Lia Bool Ascii String List.
From Stdlib Require Import DecimalString DecimalZ.
From stdpp Require Import gmap strings list fin_maps.

Local Open Scope string_scope.
Local Open Scope Z_scope.

(** ** Errors and results *)

(** The two sentinel errors of [strconv]. *)
Inductive NumErrKind : Type := ErrSyntax | ErrRange.

(** A [*strconv.NumError]: the failing function, the input and the cause. *)
Inductive NumError : Type :=
| MkNumError (func num : string) (kind : NumErrKind).

(** An error reported by an external call (Redis, HTTP, JSON encoding, Kafka,
    the file system): the program only tests it against [nil] and prints it,
    so it is kept as the text of its [Error()] method. *)
Definition io_error : Type := string.

(** A Go pair [(value, err)]: [Ok v] stands for [(v, nil)], [Err e] for a
    non-nil error (the value returned next to it is never used by callers). *)
Inductive result (E A : Type) : Type :=
| Ok (a : A)
| Err (e : E).
Arguments Ok {E A} a.
Arguments Err {E A} e.

Definition is_ok {E A} (r : result E A) : bool :=
  match r with Ok _ => true | Err _ => false end.

(** ** Machine integers *)

(** Width of Go's [int] on the platforms the image is built for. *)
Definition intSize : Z := 64.

Definition minInt : Z := - 2 ^ (intSize - 1).
Definition maxInt : Z := 2 ^ (intSize - 1) - 1.
Definition maxUint64 : Z := 2 ^ 64 - 1.

(** Two's-complement wrap-around of [int] arithmetic. *)
Definition wrap_int (x : Z) : Z :=
  (x + 2 ^ (intSize - 1)) mod 2 ^ intSize - 2 ^ (intSize - 1).

(** Wrap-around of [uint64] and [byte] arithmetic. *)
Definition wrap_uint64 (x : Z) : Z := x mod 2 ^ 64.
Definition wrap_byte (x : Z) : Z := x mod 256.

Definition in_int_range (v : Z) : bool := (minInt <=? v) && (v <=? maxInt).

(** The numeric value of a byte of a Go string. *)
Definition byte_of (c : ascii) : Z := Z.of_N (N_of_ascii c).

(** ** [strconv.Atoi] *)

Module strconv.

(** [parseID] is [strconv.Atoi], which belongs to the Go standard library
    and not to the repository.  Section 4.1 of the specification asks for a
    base-10 integer with an optional sign under the standard integer parsing
    rules, with no range restriction beyond the host integer width; the
    definitions of this module follow the library's algorithm for that
    contract: a fast path for short inputs, and [ParseInt] and [ParseUint] at
    base 10 and bit size 0 for the others. *)

(** Modelled from the spec: [strconv.Atoi] (section 4.1), the digit loop of
    its fast path:
    [ch -= '0'; if ch > 9 { syntax error }; n = n*10 + int(ch)]. *)
Fixpoint fast_loop (s : string) (n : Z) : option Z :=
  match s with
  | EmptyString => Some n
  | String ch s' =>
      let ch := wrap_byte (byte_of ch - 48) in
      if 9 <? ch then None
      else fast_loop s' (wrap_int (n * 10 + ch))
  end.

(** Modelled from the spec: [strconv.Atoi] (section 4.1), the helper
    [lower(c)]: [c | ('x' - 'X')]. *)
Definition lower (c : Z) : Z := Z.lor c 32.

(** Modelled from the spec: [strconv.Atoi] (section 4.1), the cut-off of
    [ParseUint] at base 10: the smallest number such that
    [cutoff * 10 > maxUint64]. *)
Definition cutoff10 : Z := maxUint64 / 10 + 1.

(** Modelled from the spec: [strconv.Atoi] (section 4.1), the digit loop of
    [ParseUint] at base 10 (underscores are only accepted at base 0);
    [maxVal] is [1<<bitSize - 1].  The result is the Go pair [(n, err)], the
    error reduced to its kind. *)
Fixpoint uint_loop (maxVal : Z) (s : string) (n : Z) : Z * option NumErrKind :=
  match s with
  | EmptyString => (n, None)
  | String c s' =>
      let c := byte_of c in
      let d :=
        if (48 <=? c) && (c <=? 57) then Some (wrap_byte (c - 48))
        else if (97 <=? lower c) && (lower c <=? 122)
             then Some (wrap_byte (lower c - 97 + 10))
             else None in
      match d with
      | None => (0, Some ErrSyntax)
      | Some d =>
          if 10 <=? d then (0, Some ErrSyntax)
          else if cutoff10 <=? n then (maxVal, Some ErrRange)
          else
            let n := wrap_uint64 (n * 10) in
            let n1 := wrap_uint64 (n + d) in
            if (n1 <? n) || (maxVal <? n1) then (maxVal, Some ErrRange)
            else uint_loop maxVal s' n1
      end
  end.

(** Modelled from the spec: [strconv.Atoi] (section 4.1), its call
    [ParseUint(s, 10, 0)]: bit size 0 stands for [intSize]. *)
Definition ParseUint (s : string) : Z * option NumErrKind :=
  match s with
  | EmptyString => (0, Some ErrSyntax)
  | _ =>
      let maxVal := wrap_uint64 (wrap_uint64 (Z.shiftl 1 intSize) - 1) in
      uint_loop maxVal s 0
  end.

(** Modelled from the spec: [strconv.Atoi] (section 4.1), its call
    [ParseInt(s, 10, 0)]: the sign is picked off, the digits go through
    [ParseUint], whose syntax errors are returned at once, and the magnitude
    is checked against [1 << (intSize-1)]. *)
Definition ParseInt (s : string) : result NumError Z :=
  match s with
  | EmptyString => Err (MkNumError "ParseInt" s ErrSyntax)
  | String c rest =>
      let neg := Ascii.eqb c "-" in
      let digits := if Ascii.eqb c "+" || neg then rest else s in
      match ParseUint digits with
      | (_, Some ErrSyntax) => Err (MkNumError "ParseInt" s ErrSyntax)
      | (un, _) =>
          let cutoff := wrap_uint64 (Z.shiftl 1 (intSize - 1)) in
          if negb neg && (cutoff <=? un) then Err (MkNumError "ParseInt" s ErrRange)
          else if neg && (cutoff <? un) then Err (MkNumError "ParseInt" s ErrRange)
          else
            let n := wrap_int un in
            Ok (if neg then wrap_int (- n) else n)
      end
  end.

(** Modelled from the spec: [strconv.Atoi] (section 4.1), the last part of
    [ParseInt], from the cut-off test on, under a name of its own for the
    proofs. *)
Definition magnitude (s : string) (neg : bool) (un : Z) : result NumError Z :=
  let cutoff := wrap_uint64 (Z.shiftl 1 (intSize - 1)) in
  if negb neg && (cutoff <=? un) then Err (MkNumError "ParseInt" s ErrRange)
  else if neg && (cutoff <? un) then Err (MkNumError "ParseInt" s ErrRange)
  else let n := wrap_int un in Ok (if neg then wrap_int (- n) else n).

(** Modelled from the spec: [strconv.Atoi] (section 4.1, Identifier
    Validator).  Inputs of fewer than 19 bytes (10 when [int] has 32 bits)
    take the fast path, which cannot overflow; the others, and the empty
    string, go through [ParseInt], whose error is renamed to [Atoi]. *)
Definition Atoi (s : string) : result NumError Z :=
  let sLen := Z.of_nat (String.length s) in
  if (intSize =? 32) && (0 <? sLen) && (sLen <? 10)
     || (intSize =? 64) && (0 <? sLen) && (sLen <? 19)
  then
    match s with
    | EmptyString => Err (MkNumError "Atoi" s ErrSyntax)
    | String c rest =>
        let signed := Ascii.eqb c "-" || Ascii.eqb c "+" in
        let digits := if signed then rest else s in
        if signed && (Z.of_nat (String.length digits) <? 1)
        then Err (MkNumError "Atoi" s ErrSyntax)
        else
          match fast_loop digits 0 with
          | None => Err (MkNumError "Atoi" s ErrSyntax)
          | Some n => Ok (if Ascii.eqb c "-" then wrap_int (- n) else n)
          end
    end
  else
    match ParseInt s with
    | Err (MkNumError _ num kind) => Err (MkNumError "Atoi" num kind)
    | r => r
    end.

End strconv.

(** Helper to parse integer ID. *)
Definition parseID (id : string) : result NumError Z := strconv.Atoi id.


(** ** Text formatting *)

(** The newline byte. *)
Definition nl : string := String (ascii_of_nat 10) EmptyString.

(** The verb [%d] of Go's [fmt] on an integer: decimal digits, with a leading
    minus sign for negative numbers. *)
Definition fmt_d (z : Z) : string := NilZero.string_of_int (Z.to_int z).

(** ** The Redis server *)

Module redis.

(** The external key-value service is reached through the go-redis client and
    is not part of the repository.  Following sections 4.2 and 6 of the
    specification, it holds keys with a value and an optional expiry instant,
    inserts a key atomically if and only if it is not already present,
    enumerates the live keys that match a pattern, and deletes keys.  Every
    command runs as one atomic step on the server, at an instant of the
    server clock (in milliseconds). *)

(** Modelled from the spec: the Tracked Identifier Record of the external
    store (section 3): a presence marker with an expiry. *)
Record entry : Type := { value : string; expire_at : option Z }.

(** Modelled from the spec: the external store (section 4.2); an entry is
    live until its expiry instant has passed. *)
Definition live (now : Z) (e : entry) : bool :=
  match expire_at e with
  | None => true
  | Some deadline => now <=? deadline
  end.

(** Modelled from the spec: the external store (section 4.2); what a command
    sees under a key: an expired entry counts as absent. *)
Definition lookup_live (now : Z) (key : string) (d : gmap string entry)
  : option entry :=
  match d !! key with
  | Some e => if live now e then Some e else None
  | None => None
  end.

(** Modelled from the spec: the external store (section 4.2), atomic
    set-if-not-present with expiry: [SET key value PX ms NX] ([ms = None]: no
    expiry, as plain [SETNX]). *)
Definition set_nx (now : Z) (key val : string) (ms : option Z)
    (d : gmap string entry) : gmap string entry * bool :=
  match lookup_live now key d with
  | Some _ => (d, false)
  | None =>
      (<[key := {| value := val; expire_at := (fun t => now + t) <$> ms |}]> d,
       true)
  end.

(** Modelled from the spec: the external store (section 4.2), delete:
    after [DEL key] the key is gone (the reply, a count of removed keys, is
    never looked at by the program and is left out). *)
Definition del (key : string) (d : gmap string entry) : gmap string entry :=
  delete key d.

(** Modelled from the spec: the external store (section 4.2), enumeration
    by prefix: glob matching for patterns made of literal bytes and [*] (the
    only pattern the program uses is of this kind). *)
Fixpoint glob (p s : string) {struct p} : bool :=
  match p with
  | EmptyString => match s with EmptyString => true | _ => false end
  | String c p' =>
      if Ascii.eqb c "*" then
        (fix star (s : string) : bool :=
           glob p' s
           || match s with
              | EmptyString => false
              | String _ s' => star s'
              end) s
      else
        match s with
        | EmptyString => false
        | String d s' => Ascii.eqb c d && glob p' s'
        end
  end.

(** Modelled from the spec: the external store (section 4.2); the entries
    an enumeration returns. *)
Definition matching (now : Z) (pattern : string) (kv : string * entry) : Prop :=
  live now kv.2 = true ∧ glob pattern kv.1 = true.

Global Instance matching_dec now pattern kv : Decision (matching now pattern kv).
Proof. unfold matching. apply _. Defined.

(** Modelled from the spec: the external store (section 4.2),
    [listTrackedKeys]: [KEYS pattern] returns the live keys that match, each
    once, in the order the server happens to store them. *)
Definition keys (now : Z) (pattern : string) (d : gmap string entry)
  : list string :=
  (map_to_list (filter (matching now pattern) d)).*1.

End redis.

(** ** The go-redis client *)

(** [time.Duration] counts nanoseconds. *)
Definition Second : Z := 1000000000.
Definition Minute : Z := 60 * Second.
Definition Millisecond : Z := 1000000.

(** A call to an external service either goes through or fails with an error
    message; a call that fails leaves the service as it was. *)
Definition fault : Type := option io_error.

(** Modelled from the spec: the go-redis call
    [redisClient.SetNX(ctx, key, value, expiration).Result()] ([markIfAbsent]
    of section 4.2).  It sends [SET key value EX|PX ttl NX] (plain [SETNX]
    when the expiration is zero); the Go value [true] is sent as ["1"]. *)
Definition SetNX (f : fault) (now : Z) (key val : string) (expiration : Z)
    (d : gmap string redis.entry) : gmap string redis.entry * result io_error bool :=
  match f with
  | Some err => (d, Err err)
  | None =>
      let ms := if expiration =? 0 then None else Some (expiration / Millisecond) in
      let '(d', inserted) := redis.set_nx now key val ms d in
      (d', Ok inserted)
  end.

(** Modelled from the spec: the go-redis call
    [redisClient.Keys(ctx, pattern).Result()] ([listTrackedKeys] of
    section 4.2). *)
Definition Keys (f : fault) (now : Z) (pattern : string)
    (d : gmap string redis.entry) : result io_error (list string) :=
  match f with
  | Some err => Err err
  | None => Ok (redis.keys now pattern d)
  end.

(** Modelled from the spec: the go-redis call [redisClient.Del(ctx, key)]
    ([delete] of section 4.2). *)
Definition Del (f : fault) (key : string) (d : gmap string redis.entry)
    : gmap string redis.entry * option io_error :=
  match f with
  | Some err => (d, Some err)
  | None => (redis.del key d, None)
  end.

(** ** The world the program acts on *)

(** A message handed to the Kafka producer. *)
Record Message : Type := { topic : string; payload : string }.

Record World : Type := {
  w_redis : gmap string redis.entry;   (* the Redis server at localhost:6379 *)
  w_kafka : list Message;              (* messages accepted by the producer *)
  w_file : string;                     (* contents of request_count.log *)
  w_log : list string;                 (* lines written by log.Printf *)
  w_mutex : bool                       (* true while [mutex] is held *)
}.

Definition set_redis (d : gmap string redis.entry) (w : World) : World :=
  {| w_redis := d; w_kafka := w_kafka w; w_file := w_file w;
     w_log := w_log w; w_mutex := w_mutex w |}.

(** [log.Printf] of Go's [log]: one more line on the process log (the
    time stamp the logger puts in front is left out). *)
Definition log_Printf (line : string) (w : World) : World :=
  {| w_redis := w_redis w; w_kafka := w_kafka w; w_file := w_file w;
     w_log := w_log w ++ [line]; w_mutex := w_mutex w |}.

Definition kafkaTopic : string := "unique-request-count".

(** Modelled from the spec: the external stream sink (section 6),
    [kafkaProducer.Produce(&message, nil)]: an append-only publish. *)
Definition Produce (f : fault) (m : Message) (w : World) : World * option io_error :=
  match f with
  | Some err => (w, Some err)
  | None =>
      ({| w_redis := w_redis w; w_kafka := w_kafka w ++ [m]; w_file := w_file w;
          w_log := w_log w; w_mutex := w_mutex w |}, None)
  end.

(** Modelled from the spec: the durable log file (section 6),
    [fmt.Fprintf(requestLogFile, ...)] on a file opened with [O_APPEND]. *)
Definition Fprintf (f : fault) (text : string) (w : World) : World * option io_error :=
  match f with
  | Some err => (w, Some err)
  | None =>
      ({| w_redis := w_redis w; w_kafka := w_kafka w;
          w_file := (w_file w ++ text)%string;
          w_log := w_log w; w_mutex := w_mutex w |}, None)
  end.

Definition set_mutex (b : bool) (w : World) : World :=
  {| w_redis := w_redis w; w_kafka := w_kafka w; w_file := w_file w;
     w_log := w_log w; w_mutex := b |}.

(** ** The write path *)

(** The Redis key of an identifier: [fmt.Sprintf("request_id:%d", id)]. *)
Definition request_key (id : Z) : string := ("request_id:" ++ fmt_d id)%string.

(** [trackUniqueRequest] stores the ID in Redis and returns true if it was
    unique (not present in the last minute). *)
Definition trackUniqueRequest (f : fault) (now : Z) (id : Z) (w : World)
    : World * result io_error bool :=
  let key := request_key id in
  match SetNX f now key "1" Minute (w_redis w) with
  | (_, Err err) =>
      (log_Printf ("Error interacting with Redis: " ++ err) w, Err err)
  | (d, Ok isUnique) => (set_redis d w, Ok isUnique)
  end.

(** What the outside world answers while one request is served. *)
Record HandlerEnv : Type := {
  e_now : Z;                    (* server clock when the SetNX command runs *)
  e_setnx : fault;              (* whether the SetNX call fails *)
  e_marshal : result io_error string;
                                (* what json.Marshal returns for the payload *)
  e_post : result io_error Z    (* status code of the reply to the POST, or
                                   the error of a POST that got no reply *)
}.

(** [triggerEndpoint] sends a POST request to the specified endpoint with a
    message payload. *)
Definition triggerEndpoint (env : HandlerEnv) (endpoint : string) (w : World)
    : World * option io_error :=
  match e_marshal env with
  | Err err =>
      (log_Printf ("Error encoding JSON data: " ++ err) w, Some err)
  | Ok jsonData =>
      match e_post env with
      | Err err =>
          (log_Printf ("Error making request to endpoint: " ++ err) w, Some err)
      | Ok statusCode =>
          (log_Printf ("Triggered endpoint: " ++ endpoint
                       ++ " with status code: " ++ fmt_d statusCode) w, None)
      end
  end.

(** The query parameters of a request, as [r.URL.Query().Get] returns them:
    the empty string stands for a parameter that is absent. *)
Record Request : Type := { query_id : string; query_endpoint : string }.

Record Response : Type := { status : Z; body : string }.

Definition StatusOK : Z := 200.
Definition StatusBadRequest : Z := 400.
Definition StatusConflict : Z := 409.
Definition StatusInternalServerError : Z := 500.

(** [http.Error(w, msg, code)] of Go's [net/http] replies with the code and
    the message on a line of its own. *)
Definition http_Error (msg : string) (code : Z) : Response :=
  {| status := code; body := (msg ++ nl)%string |}.

(** [RequestHandler] handles the /api/verve/accept endpoint. *)
Definition RequestHandler (env : HandlerEnv) (r : Request) (w : World)
    : World * Response :=
  let idParam := query_id r in
  if String.eqb idParam "" then (w, http_Error "failed" StatusBadRequest)
  else
    match parseID idParam with
    | Err _ => (w, http_Error "failed" StatusBadRequest)
    | Ok id =>
        match trackUniqueRequest (e_setnx env) (e_now env) id w with
        | (w1, Err _) => (w1, http_Error "failed" StatusInternalServerError)
        | (w1, Ok false) => (w1, http_Error "failed: Duplicate" StatusConflict)
        | (w1, Ok true) =>
            let endpoint := query_endpoint r in
            if negb (String.eqb endpoint "") then
              match triggerEndpoint env endpoint w1 with
              | (w2, Some _) => (w2, http_Error "failed" StatusInternalServerError)
              | (w2, None) => (w2, {| status := StatusOK; body := "ok" |})
              end
            else (w1, {| status := StatusOK; body := "ok" |})
        end
    end.

(** ** The read-and-clear path *)

(** What the outside world answers during one tick of the aggregator. *)
Record TickEnv : Type := {
  t_now : Z;                (* server clock when the KEYS command runs *)
  t_keys : fault;           (* whether the Keys call fails *)
  t_produce : fault;        (* whether the producer refuses the message *)
  t_write : fault;          (* whether the write to the log file fails *)
  t_del : string -> fault   (* whether the Del of a given key fails *)
}.

Definition tracked_pattern : string := "request_id:*".

(** The text both sinks receive, up to the final newline of the file. *)
Definition report_text (uniqueCount : Z) : string :=
  ("Unique request count in last minute: " ++ fmt_d uniqueCount)%string.

(** [for _, key := range keys { redisClient.Del(ctx, key) }]: the result of
    each [Del] is dropped. *)
Fixpoint cleanup (del_fault : string -> fault) (keys : list string)
    (d : gmap string redis.entry) : gmap string redis.entry :=
  match keys with
  | [] => d
  | key :: rest => cleanup del_fault rest (Del (del_fault key) key d).1
  end.

(** One iteration of the loop of [LogUniqueRequests].  [None] stands for an
    iteration that never gets past [mutex.Lock()]. *)
Definition cycle (env : TickEnv) (w : World) : option World :=
  if w_mutex w then None
  else
    let w := set_mutex true w in
    match Keys (t_keys env) (t_now env) tracked_pattern (w_redis w) with
    | Err err =>
        let w := log_Printf ("Error fetching keys from Redis: " ++ err) w in
        Some (set_mutex false w)
    | Ok keys =>
        let uniqueCount := Z.of_nat (length keys) in
        let w := log_Printf ("Sending unique request count to Kafka: "
                             ++ fmt_d uniqueCount) w in
        let message := {| topic := kafkaTopic; payload := report_text uniqueCount |} in
        let '(w, err) := Produce (t_produce env) message w in
        let w := match err with
                 | Some err => log_Printf ("Error sending message to Kafka: " ++ err) w
                 | None => w
                 end in
        let '(w, err) := Fprintf (t_write env) (report_text uniqueCount ++ nl) w in
        let w := match err with
                 | Some err => log_Printf ("Error writing to log file: " ++ err) w
                 | None => w
                 end in
        let w := set_redis (cleanup (t_del env) keys (w_redis w)) w in
        Some (set_mutex false w)
    end.

(** [LogUniqueRequests]: the loop over [time.Tick(time.Minute)] has no exit;
    the model runs it over the ticks delivered so far. *)
Fixpoint LogUniqueRequests (ticks : list TickEnv) (w : World) : option World :=
  match ticks with
  | [] => Some w
  | env :: rest =>
      match cycle env w with
      | Some w' => LogUniqueRequests rest w'
      | None => None
      end
  end.

(** ** Handlers running next to the aggregator *)

(** Handler goroutines and the aggregator share nothing but the Redis server,
    and a handler sends it a single command.  A concurrent run is therefore
    an interleaving of two kinds of atomic events. *)
Inductive event : Type :=
| Served (env : HandlerEnv) (r : Request)   (* a handler serves a request *)
| Deleted (f : fault) (key : string).       (* the clean-up loop issues a Del *)

Definition step (ev : event) (w : World) : World * list Response :=
  match ev with
  | Served env r => let '(w', resp) := RequestHandler env r w in (w', [resp])
  | Deleted f key => (set_redis (Del f key (w_redis w)).1 w, [])
  end.

Fixpoint run (evs : list event) (w : World) : World * list Response :=
  match evs with
  | [] => (w, [])
  | ev :: rest =>
      let '(w1, out1) := step ev w in
      let '(w2, out2) := run rest w1 in
      (w2, (out1 ++ out2)%list)
  end.

(** The keys the clean-up loop deletes during a run, in order. *)
Fixpoint deleted_keys (evs : list event) : list string :=
  match evs with
  | [] => []
  | Deleted _ key :: rest => key :: deleted_keys rest
  | Served _ _ :: rest => deleted_keys rest
  end.

(** The same run without the aggregator. *)
Fixpoint handlers_only (evs : list event) : list event :=
  match evs with
  | [] => []
  | Deleted _ _ :: rest => handlers_only rest
  | Served env r :: rest => Served env r :: handlers_only rest
  end.

(** ** The vocabulary of the specification *)

(** The four outcomes of section 4.3. *)
Inductive Outcome : Type := Accepted | Duplicate | Invalid | StoreError.

(** The reply the handler gives for each outcome. *)
Definition reply_of (o : Outcome) : Response :=
  match o with
  | Accepted => {| status := StatusOK; body := "ok" |}
  | Duplicate => http_Error "failed: Duplicate" StatusConflict
  | Invalid => http_Error "failed" StatusBadRequest
  | StoreError => http_Error "failed" StatusInternalServerError
  end.

(** Whether a request comes with a notification that fails. *)
Definition notification_fails (env : HandlerEnv) (r : Request) : bool :=
  negb (String.eqb (query_endpoint r) "")
  && negb (is_ok (e_marshal env) && is_ok (e_post env)).

(** Decimal digits and the number they denote. *)
Definition is_digit (c : ascii) : bool := (48 <=? byte_of c) && (byte_of c <=? 57).

Fixpoint all_digits (s : string) : bool :=
  match s with
  | EmptyString => true
  | String c s' => is_digit c && all_digits s'
  end.

Fixpoint digits_value (s : string) (acc : Z) : Z :=
  match s with
  | EmptyString => acc
  | String c s' => digits_value s' (acc * 10 + (byte_of c - 48))
  end.

(** The integer a string represents in base 10: an optional sign followed by
    one or more decimal digits; [None] for every other string. *)
Definition decimal_integer (s : string) : option Z :=
  match s with
  | EmptyString => None
  | String c rest =>
      if Ascii.eqb c "-" then
        match rest with
        | EmptyString => None
        | _ => if all_digits rest then Some (- digits_value rest 0) else None
        end
      else if Ascii.eqb c "+" then
        match rest with
        | EmptyString => None
        | _ => if all_digits rest then Some (digits_value rest 0) else None
        end
      else if all_digits s then Some (digits_value s 0) else None
  end.

(** The identifiers newly recorded while a list of requests is served one
    after the other: those for which [trackUniqueRequest] returned true. *)
Fixpoint accepted_ids (reqs : list (HandlerEnv * Request)) (w : World) : list Z :=
  match reqs with
  | [] => []
  | (env, r) :: rest =>
      let w' := (RequestHandler env r w).1 in
      match parseID (query_id r) with
      | Ok id =>
          match trackUniqueRequest (e_setnx env) (e_now env) id w with
          | (_, Ok true) => id :: accepted_ids rest w'
          | _ => accepted_ids rest w'
          end
      | Err _ => accepted_ids rest w'
      end
  end.

(** A request served by a handler, or a call of [trackUniqueRequest], with
    the answers of the outside world. *)
Definition serve_all (reqs : list (HandlerEnv * Request)) (w : World) : World :=
  (run (map (fun er => Served er.1 er.2) reqs) w).1.

(** Calls of [trackUniqueRequest] one after the other; a call is given by the
    fate of its Redis command, the instant the command runs and the
    identifier. *)
Fixpoint track_all (calls : list (fault * Z * Z)) (w : World) : World :=
  match calls with
  | [] => w
  | (f, now, id) :: rest => track_all rest (trackUniqueRequest f now id w).1
  end.

(** The answers such calls get, in the order of the calls. *)
Fixpoint track_results (calls : list (fault * Z * Z)) (w : World)
    : list (result io_error bool) :=
  match calls with
  | [] => []
  | (f, now, id) :: rest =>
      let '(w', res) := trackUniqueRequest f now id w in
      res :: track_results rest w'
  end.

(** What a cycle leaves in the two sinks when it reports [n]: each sink that
    takes the write has exactly the report appended. *)
Definition reported (n : Z) (env : TickEnv) (before after : World) : Prop :=
  (t_produce env = None →
     w_kafka after
     = (w_kafka before
        ++ [{| topic := "unique-request-count";
               payload := "Unique request count in last minute: " ++ fmt_d n |}])%list)
  ∧ (t_write env = None →
     w_file after
     = (w_file before ++ "Unique request count in last minute: " ++ fmt_d n ++ nl)%string).

(** The entry [trackUniqueRequest] writes at instant [now]: the marker ["1"],
    to expire one minute later. *)
Definition marker (now : Z) : redis.entry :=
  {| redis.value := "1"; redis.expire_at := Some (now + 60 * 1000) |}.

(** ** Sample inputs *)

(** A fresh installation: nothing stored, nothing reported, mutex free. *)
Definition w0 : World :=
  {| w_redis := ∅; w_kafka := []; w_file := ""; w_log := []; w_mutex := false |}.

(** A request served at instant [now], every external call succeeding. *)
Definition calm (now : Z) : HandlerEnv :=
  {| e_now := now; e_setnx := None;
     e_marshal := Ok "{}"; e_post := Ok 200 |}.

(** The same, but the callback endpoint cannot be reached. *)
Definition unreachable (now : Z) : HandlerEnv :=
  {| e_now := now; e_setnx := None;
     e_marshal := Ok "{}"; e_post := Err "connection refused" |}.

(** The same, but the callback endpoint answers with the given status. *)
Definition answering (now code : Z) : HandlerEnv :=
  {| e_now := now; e_setnx := None;
     e_marshal := Ok "{}"; e_post := Ok code |}.

Definition submit (rawId : string) : Request :=
  {| query_id := rawId; query_endpoint := "" |}.

Definition submit_notify (rawId endpoint : string) : Request :=
  {| query_id := rawId; query_endpoint := endpoint |}.

(** A tick at instant [now], every external call succeeding. *)
Definition quiet_tick (now : Z) : TickEnv :=
  {| t_now := now; t_keys := None; t_produce := None; t_write := None;
     t_del := fun _ => None |}.

(** A tick during which the Redis server cannot be reached. *)
Definition keys_down (now : Z) : TickEnv :=
  {| t_now := now; t_keys := Some "dial tcp: connection refused";
     t_produce := None; t_write := None; t_del := fun _ => None |}.

(** A tick at instant [now] during which one [Del] fails. *)
Definition del_fails (now : Z) (key : string) : TickEnv :=
  {| t_now := now; t_keys := None; t_produce := None; t_write := None;
     t_del := fun k => if String.eqb k key then Some "i/o timeout" else None |}.

(** Three calls for identifier 42, and the order in which they arrive. *)
Definition three_calls : list (fault * Z * Z) :=
  [(None, 101, 42); (None, 100, 42); (None, 105, 42)].

Definition three_calls_arrival : list (fault * Z * Z) :=
  [(None, 100, 42); (None, 105, 42); (None, 101, 42)].

(** ** Invariants *)

(** The value of a [Decimal.uint], most significant digit first. *)
Fixpoint uint_value (d : Decimal.uint) (acc : Z) : Z :=
  match d with
  | Decimal.Nil => acc
  | Decimal.D0 l => uint_value l (acc * 10 + 0)
  | Decimal.D1 l => uint_value l (acc * 10 + 1)
  | Decimal.D2 l => uint_value l (acc * 10 + 2)
  | Decimal.D3 l => uint_value l (acc * 10 + 3)
  | Decimal.D4 l => uint_value l (acc * 10 + 4)
  | Decimal.D5 l => uint_value l (acc * 10 + 5)
  | Decimal.D6 l => uint_value l (acc * 10 + 6)
  | Decimal.D7 l => uint_value l (acc * 10 + 7)
  | Decimal.D8 l => uint_value l (acc * 10 + 8)
  | Decimal.D9 l => uint_value l (acc * 10 + 9)
  end.


(** The tracked part of a store consists of the markers of [ids], each
    written during the minute that ends at instant [T]. *)
Definition tracks (T : Z) (d : gmap string redis.entry) (ids : list Z) : Prop :=
  forall key,
    redis.glob tracked_pattern key = true ->
    match d !! key with
    | Some e =>
        key ∈ request_key <$> ids
        /\ exists t, e = marker t /\ t <= T < t + 60 * 1000
    | None => key ∉ request_key <$> ids
    end.

(** ** Further vocabulary and sample inputs *)

(** The replies to requests served one after the other. *)
Definition serve_replies (reqs : list (HandlerEnv * Request)) (w : World)
    : list Response :=
  (run (map (fun er => Served er.1 er.2) reqs) w).2.

(** The calls of [trackUniqueRequest] that requests for identifier [id]
    make. *)
Definition calls_of (id : Z) (reqs : list (HandlerEnv * Request))
    : list (fault * Z * Z) :=
  (fun er => (e_setnx er.1, e_now er.1, id)) <$> reqs.

(** Three submissions of identifier 42, the one sent at 100 ms with an
    endpoint that cannot be reached, and an order in which they arrive. *)
Definition three_submissions : list (HandlerEnv * Request) :=
  [(calm 101, submit "42");
   (unreachable 100, submit_notify "42" "http://callback");
   (calm 105, submit "042")].

Definition three_submissions_arrival : list (HandlerEnv * Request) :=
  [(unreachable 100, submit_notify "42" "http://callback");
   (calm 105, submit "042");
   (calm 101, submit "42")].

(** A pattern without [*]: every byte stands for itself. *)
Fixpoint no_star (p : string) : bool :=
  match p with
  | EmptyString => true
  | String c p' => negb (Ascii.eqb c "*") && no_star p'
  end.

(** The lines the log file receives for a list of counts, one per cycle. *)
Fixpoint report_lines (counts : list Z) : string :=
  match counts with
  | [] => EmptyString
  | n :: rest => ((report_text n ++ nl) ++ report_lines rest)%string
  end.

(** A tick on which every external call succeeds. *)
Definition quiet (env : TickEnv) : Prop :=
  t_keys env = None /\ t_produce env = None /\ t_write env = None
  /\ forall key, t_del env key = None.

(** No tracked key is live at instant [T] or later. *)
Definition drained_at (T : Z) (d : gmap string redis.entry) : Prop :=
  forall key e,
    d !! key = Some e -> redis.glob tracked_pattern key = true ->
    redis.live T e = false.

(** An entry recorded by one of the requests served during a run. *)
Definition recorded_by (evs : list event) (key : string) (e : redis.entry)
    : Prop :=
  exists env r id,
    Served env r ∈ evs
    /\ parseID (query_id r) = Ok id
    /\ key = request_key id
    /\ e = marker (e_now env).

(** A tick at instant [now] during which the producer refuses the message. *)
Definition kafka_down (now : Z) : TickEnv :=
  {| t_now := now; t_keys := None; t_produce := Some "Local: Queue full";
     t_write := None; t_del := fun _ => None |}.

(** A store that also holds a key of another application. *)
Definition w_shared : World :=
  {| w_redis :=
       <["session:abc" := {| redis.value := "x"; redis.expire_at := None |}]>
         (<["request_id:5" := marker 0]> ∅);
     w_kafka := []; w_file := ""; w_log := []; w_mutex := false |}.

(** The delete loop for the snapshot of [w_shared] at one second, with two
    requests served while it runs. *)
Definition cleanup_with_requests : list event :=
  [Served (calm 1001) (submit "6");
   Deleted None "request_id:5";
   Served (calm 1002) (submit "5")].

(** * Properties *)

(** ** Parsing *)

Section Parsing.

Import strconv.

(** Case analysis on every integer comparison of the goal. *)
Ltac case_cmp :=
  repeat match goal with
    | |- context [Z.leb ?a ?b] => destruct (Z.leb_spec a b)
    | |- context [Z.ltb ?a ?b] => destruct (Z.ltb_spec a b)
    end.

Lemma byte_of_range c : 0 <= byte_of c < 256.
Proof. unfold byte_of. pose proof (N_ascii_bounded c). lia. Qed.

Lemma fast_digit_test c :
  (9 <? wrap_byte (byte_of c - 48)) = negb (is_digit c).
Proof.
  pose proof (byte_of_range c) as Hc. unfold is_digit, wrap_byte.
  destruct (Z.ltb_spec 9 ((byte_of c - 48) mod 256)),
           (Z.leb_spec 48 (byte_of c)), (Z.leb_spec (byte_of c) 57);
    simpl; try reflexivity; exfalso; Z.div_mod_to_equations; lia.
Qed.

Lemma digit_byte c :
  is_digit c = true -> wrap_byte (byte_of c - 48) = byte_of c - 48 /\ 48 <= byte_of c <= 57.
Proof.
  unfold is_digit, wrap_byte. intros H.
  apply andb_true_iff in H as [H1 H2].
  apply Z.leb_le in H1, H2. split; [|lia].
  apply Z.mod_small. lia.
Qed.

Lemma digits_value_ge s : forall n,
  all_digits s = true -> 0 <= n -> n <= digits_value s n.
Proof.
  induction s as [|c s IH]; intros n Hd Hn; simpl in *; [lia|].
  apply andb_true_iff in Hd as [Hc Hs].
  apply digit_byte in Hc as [_ Hc].
  specialize (IH (n * 10 + (byte_of c - 48)) Hs). lia.
Qed.

Lemma digits_value_lt s : forall n,
  all_digits s = true -> 0 <= n ->
  digits_value s n < (n + 1) * 10 ^ Z.of_nat (String.length s).
Proof.
  induction s as [|c s IH]; intros n Hd Hn; simpl String.length; simpl in Hd |- *.
  - lia.
  - apply andb_true_iff in Hd as [Hc Hs].
    apply digit_byte in Hc as [_ Hc].
    specialize (IH (n * 10 + (byte_of c - 48)) Hs).
    rewrite Nat2Z.inj_succ, Z.pow_succ_r by lia.
    assert (0 < 10 ^ Z.of_nat (String.length s)) by (apply Z.pow_pos_nonneg; lia).
    nia.
Qed.

Lemma fast_loop_nondigit s : forall n,
  all_digits s = false -> fast_loop s n = None.
Proof.
  induction s as [|c s IH]; intros n Hd; simpl in *; [discriminate|].
  rewrite fast_digit_test.
  destruct (is_digit c); simpl in *; [auto | reflexivity].
Qed.

Lemma wrap_int_small x : minInt <= x <= maxInt -> wrap_int x = x.
Proof.
  unfold wrap_int, minInt, maxInt, intSize. intros H.
  change (2 ^ (64 - 1)) with 9223372036854775808 in *.
  change (2 ^ 64) with 18446744073709551616.
  rewrite Z.mod_small; lia.
Qed.

Lemma fast_loop_digits s : forall n,
  all_digits s = true -> 0 <= n -> digits_value s n <= maxInt ->
  fast_loop s n = Some (digits_value s n).
Proof.
  induction s as [|c s IH]; intros n Hd Hn Hmax; simpl in *; [reflexivity|].
  apply andb_true_iff in Hd as [Hc Hs].
  rewrite fast_digit_test, Hc. simpl.
  apply digit_byte in Hc as [-> Hc].
  pose proof (digits_value_ge s (n * 10 + (byte_of c - 48)) Hs ltac:(lia)).
  rewrite wrap_int_small by (unfold minInt, maxInt, intSize in *; simpl in *; lia).
  apply IH; auto; lia.
Qed.


Lemma uint_digit c :
  is_digit c = true ->
  ((48 <=? byte_of c) && (byte_of c <=? 57)) = true.
Proof. auto. Qed.

Lemma lower_range c : 0 <= c < 256 -> 0 <= lower c < 256.
Proof.
  intros H. unfold lower.
  assert (Hnn : 0 <= Z.lor c 32) by (apply Z.lor_nonneg; lia).
  split; [assumption|].
  destruct (Z.eq_dec c 0) as [->|Hne]; [reflexivity|].
  assert (Hlog : Z.log2 (Z.lor c 32) < 8).
  { rewrite Z.log2_lor by lia.
    apply Z.max_lub_lt; apply Z.log2_lt_pow2; try lia;
      change (2 ^ 8) with 256; lia. }
  assert (Hpos : 0 < Z.lor c 32).
  { destruct (Z.eq_dec (Z.lor c 32) 0) as [E|E]; [|lia].
    apply Z.lor_eq_0_iff in E. lia. }
  apply Z.log2_lt_pow2 in Hlog; [|assumption].
  change (2 ^ 8) with 256 in Hlog. assumption.
Qed.

(** A byte that is not a decimal digit stops [ParseUint] with a syntax
    error, whatever was read before. *)
Lemma uint_step_nondigit M c s n :
  is_digit c = false -> uint_loop M (String c s) n = (0, Some ErrSyntax).
Proof.
  intros Hc. simpl. unfold is_digit in Hc. rewrite Hc.
  pose proof (lower_range (byte_of c) (byte_of_range c)) as Hl.
  destruct ((97 <=? lower (byte_of c)) && (lower (byte_of c) <=? 122)) eqn:E;
    [|reflexivity].
  apply andb_true_iff in E as [E1 E2]. apply Z.leb_le in E1, E2.
  replace (10 <=? wrap_byte (lower (byte_of c) - 97 + 10)) with true; [reflexivity|].
  symmetry. apply Z.leb_le. unfold wrap_byte. rewrite Z.mod_small; lia.
Qed.

Lemma uint_loop_range_value M s : forall n v,
  uint_loop M s n = (v, Some ErrRange) -> v = M.
Proof.
  induction s as [|c s IH]; intros n v H; [simpl in H; congruence|].
  destruct (is_digit c) eqn:Hc.
  - simpl in H. rewrite (uint_digit c Hc) in H.
    destruct (10 <=? _); [congruence|].
    destruct (cutoff10 <=? n); [congruence|].
    destruct (_ || _); [congruence|]. eauto.
  - rewrite uint_step_nondigit in H by assumption. congruence.
Qed.

Lemma uint_loop_nondigit M s : forall n,
  all_digits s = false -> snd (uint_loop M s n) <> None.
Proof.
  induction s as [|c s IH]; intros n Hd; [discriminate|].
  destruct (is_digit c) eqn:Hc.
  - simpl in Hd. rewrite Hc in Hd. simpl in Hd.
    simpl. rewrite (uint_digit c Hc).
    destruct (10 <=? _); [discriminate|].
    destruct (cutoff10 <=? n); [discriminate|].
    destruct (_ || _); [discriminate|]. auto.
  - rewrite uint_step_nondigit by assumption. discriminate.
Qed.

Lemma uint_loop_digits s : forall n,
  all_digits s = true -> 0 <= n <= maxUint64 ->
  uint_loop maxUint64 s n
  = if digits_value s n <=? maxUint64 then (digits_value s n, None)
    else (maxUint64, Some ErrRange).
Proof.
  induction s as [|c s IH]; intros n Hd Hn; simpl in Hd |- *.
  - destruct (Z.leb_spec n maxUint64); [reflexivity | lia].
  - apply andb_true_iff in Hd as [Hc Hs].
    rewrite (uint_digit c Hc).
    destruct (digit_byte c Hc) as [-> Hb].
    set (d := byte_of c - 48) in *.
    assert (Hd : 0 <= d <= 9) by (unfold d; lia).
    pose proof (digits_value_ge s (n * 10 + d) Hs ltac:(lia)) as Hge.
    destruct (Z.leb_spec 10 d); [lia|].
    unfold cutoff10, wrap_uint64, maxUint64 in *.
    change (2 ^ 64) with 18446744073709551616 in *.
    change ((18446744073709551616 - 1) / 10 + 1) with 1844674407370955162.
    destruct (Z.leb_spec 1844674407370955162 n).
    + destruct (Z.leb_spec (digits_value s (n * 10 + d)) (18446744073709551616 - 1));
        [lia | reflexivity].
    + rewrite (Z.mod_small (n * 10)) by lia.
      destruct (Z_lt_dec (n * 10 + d) 18446744073709551616) as [Hlt|Hge'].
      * rewrite (Z.mod_small (n * 10 + d)) by lia.
        destruct (Z.ltb_spec (n * 10 + d) (n * 10)); [lia|].
        destruct (Z.ltb_spec (18446744073709551616 - 1) (n * 10 + d)); [lia|].
        simpl. apply IH; auto. lia.
      * assert (Hm : (n * 10 + d) mod 18446744073709551616
                     = n * 10 + d - 18446744073709551616).
        { symmetry. apply (Z.mod_unique _ _ 1); lia. }
        rewrite Hm.
        destruct (Z.ltb_spec (n * 10 + d - 18446744073709551616) (n * 10)); [|lia].
        simpl.
        destruct (Z.leb_spec (digits_value s (n * 10 + d)) (18446744073709551616 - 1));
          [lia | reflexivity].
Qed.


Lemma ParseUint_digits ds :
  ds <> "" -> all_digits ds = true ->
  ParseUint ds
  = if digits_value ds 0 <=? maxUint64 then (digits_value ds 0, None)
    else (maxUint64, Some ErrRange).
Proof.
  intros Hne Hd. unfold ParseUint.
  change (wrap_uint64 (wrap_uint64 (Z.shiftl 1 intSize) - 1)) with maxUint64.
  destruct ds; [congruence|].
  apply uint_loop_digits; [assumption|]. unfold maxUint64. simpl. lia.
Qed.

Lemma ParseUint_bad ds :
  ds = "" \/ all_digits ds = false ->
  exists v k, ParseUint ds = (v, Some k) /\ (k = ErrRange -> v = maxUint64).
Proof.
  intros [-> | Hd].
  - exists 0, ErrSyntax. split; [reflexivity | discriminate].
  - unfold ParseUint.
    change (wrap_uint64 (wrap_uint64 (Z.shiftl 1 intSize) - 1)) with maxUint64.
    destruct ds as [|c ds]; [discriminate|].
    pose proof (uint_loop_nondigit maxUint64 (String c ds) 0 Hd) as Hn.
    destruct (uint_loop maxUint64 (String c ds) 0) as [v [k|]] eqn:E;
      [|simpl in Hn; congruence].
    exists v, k. split; [reflexivity|]. intros ->.
    eapply uint_loop_range_value; eauto.
Qed.

Lemma magnitude_spec s neg un :
  0 <= un ->
  magnitude s neg un
  = let v := if neg then - un else un in
    if in_int_range v then Ok v else Err (MkNumError "ParseInt" s ErrRange).
Proof.
  intros Hun. unfold magnitude, in_int_range, minInt, maxInt, wrap_int, intSize.
  change (wrap_uint64 (Z.shiftl 1 (64 - 1))) with 9223372036854775808.
  change (2 ^ (64 - 1)) with 9223372036854775808.
  change (2 ^ 64) with 18446744073709551616.
  cbv zeta.
  destruct neg; simpl negb; simpl andb; case_cmp; simpl;
    try reflexivity; try lia; f_equal.
  - destruct (Z.eq_dec un 9223372036854775808) as [->|Hne]; [reflexivity|].
    rewrite (Z.mod_small (un + _)) by lia.
    replace (un + 9223372036854775808 - 9223372036854775808) with un by lia.
    rewrite Z.mod_small by lia. lia.
  - rewrite Z.mod_small by lia. lia.
Qed.

Lemma magnitude_max s neg :
  magnitude s neg maxUint64 = Err (MkNumError "ParseInt" s ErrRange).
Proof. destruct neg; reflexivity. Qed.

(** [ParseInt] on an optional sign followed by [ds]. *)
Lemma ParseInt_stage s neg ds :
  match ParseUint ds with
  | (_, Some ErrSyntax) => Err (MkNumError "ParseInt" s ErrSyntax)
  | (un, _) => magnitude s neg un
  end
  = if negb (String.eqb ds "") && all_digits ds then
      let v := if neg then - digits_value ds 0 else digits_value ds 0 in
      if in_int_range v then Ok v else Err (MkNumError "ParseInt" s ErrRange)
    else
      match ParseUint ds with
      | (_, Some ErrSyntax) => Err (MkNumError "ParseInt" s ErrSyntax)
      | _ => Err (MkNumError "ParseInt" s ErrRange)
      end.
Proof.
  destruct (String.eqb_spec ds "") as [->|Hne]; [reflexivity|].
  simpl negb. simpl andb.
  destruct (all_digits ds) eqn:Hd.
  - rewrite ParseUint_digits by assumption.
    pose proof (digits_value_ge ds 0 Hd ltac:(lia)) as Hge.
    destruct (Z.leb_spec (digits_value ds 0) maxUint64) as [Hle|Hgt].
    + apply magnitude_spec. assumption.
    + rewrite magnitude_max. cbv zeta.
      replace (in_int_range _) with false; [reflexivity|].
      symmetry. unfold in_int_range, minInt, maxInt, maxUint64, intSize in *.
      change (2 ^ (64 - 1)) with 9223372036854775808.
      change (2 ^ 64) with 18446744073709551616 in Hgt.
      destruct neg; apply andb_false_iff; [left; apply Z.leb_gt | right; apply Z.leb_gt]; lia.
  - destruct (ParseUint_bad ds (or_intror Hd)) as (v & k & -> & Hk).
    destruct k; [reflexivity|].
    rewrite Hk by reflexivity. apply magnitude_max.
Qed.


Lemma ParseInt_unfold c rest :
  ParseInt (String c rest)
  = let s := String c rest in
    let neg := Ascii.eqb c "-" in
    let digits := if Ascii.eqb c "+" || neg then rest else s in
    match ParseUint digits with
    | (_, Some ErrSyntax) => Err (MkNumError "ParseInt" s ErrSyntax)
    | (un, _) => magnitude s neg un
    end.
Proof. reflexivity. Qed.

(** [decimal_integer] in the shape of the parsers: a sign test, then the
    digits. *)
Lemma decimal_integer_unfold c rest :
  decimal_integer (String c rest)
  = let minus := Ascii.eqb c "-" in
    let ds := if Ascii.eqb c "+" || minus then rest else String c rest in
    if negb (String.eqb ds "") && all_digits ds
    then Some (if minus then - digits_value ds 0 else digits_value ds 0)
    else None.
Proof.
  unfold decimal_integer.
  destruct (Ascii.eqb c "-"), (Ascii.eqb c "+"); cbv zeta; simpl orb; cbv match;
    first [ destruct rest; reflexivity
          | destruct (all_digits (String c rest)); reflexivity ].
Qed.

Lemma ParseInt_decimal s :
  match decimal_integer s with
  | Some v =>
      ParseInt s
      = if in_int_range v then Ok v else Err (MkNumError "ParseInt" s ErrRange)
  | None => is_ok (ParseInt s) = false
  end.
Proof.
  destruct s as [|c rest]; [reflexivity|].
  rewrite ParseInt_unfold, decimal_integer_unfold. cbv zeta.
  rewrite ParseInt_stage.
  generalize (if Ascii.eqb c "+" || Ascii.eqb c "-" then rest else String c rest).
  intros ds.
  destruct (negb (String.eqb ds "") && all_digits ds); [reflexivity|].
  destruct (ParseUint ds) as [? [[]|]]; reflexivity.
Qed.

Lemma short_digits_in_range ds :
  all_digits ds = true -> (String.length ds < 19)%nat ->
  0 <= digits_value ds 0 < 10 ^ 18.
Proof.
  intros Hd Hlen.
  pose proof (digits_value_ge ds 0 Hd ltac:(lia)).
  pose proof (digits_value_lt ds 0 Hd ltac:(lia)) as Hlt.
  split; [assumption|].
  eapply Z.lt_le_trans; [exact Hlt|].
  rewrite Z.mul_1_l. apply Z.pow_le_mono_r; lia.
Qed.

(** The fast path of [Atoi] on an optional sign followed by [ds]. *)
Lemma fast_stage (s : string) (minus : bool) ds :
  (String.length ds < 19)%nat ->
  match fast_loop ds 0 with
  | None => Err (MkNumError "Atoi" s ErrSyntax)
  | Some n => Ok (if minus then wrap_int (- n) else n)
  end
  = if all_digits ds
    then Ok (if minus then - digits_value ds 0 else digits_value ds 0)
    else Err (MkNumError "Atoi" s ErrSyntax).
Proof.
  intros Hlen. destruct (all_digits ds) eqn:Hd.
  - destruct (short_digits_in_range ds Hd Hlen) as [H0 H18].
    change (10 ^ 18) with 1000000000000000000 in H18.
    rewrite fast_loop_digits; try assumption; try lia;
      [|unfold maxInt, intSize; change (2 ^ (64 - 1)) with 9223372036854775808; lia].
    destruct minus; [|reflexivity].
    rewrite wrap_int_small; [reflexivity|].
    unfold minInt, maxInt, intSize. change (2 ^ (64 - 1)) with 9223372036854775808. lia.
  - rewrite fast_loop_nondigit by assumption. reflexivity.
Qed.

Lemma short_in_int_range ds (minus : bool) :
  all_digits ds = true -> (String.length ds < 19)%nat ->
  in_int_range (if minus then - digits_value ds 0 else digits_value ds 0) = true.
Proof.
  intros Hd Hlen. destruct (short_digits_in_range ds Hd Hlen) as [H0 H18].
  change (10 ^ 18) with 1000000000000000000 in H18.
  unfold in_int_range, minInt, maxInt, intSize.
  change (2 ^ (64 - 1)) with 9223372036854775808.
  apply andb_true_iff. split; apply Z.leb_le; destruct minus; lia.
Qed.

Lemma Atoi_decimal s :
  match decimal_integer s with
  | Some v =>
      Atoi s = if in_int_range v then Ok v else Err (MkNumError "Atoi" s ErrRange)
  | None => is_ok (Atoi s) = false
  end.
Proof.
  unfold Atoi. cbv zeta.
  change (intSize =? 32) with false. change (intSize =? 64) with true.
  simpl andb. simpl orb.
  destruct (Z.ltb_spec 0 (Z.of_nat (String.length s))) as [Hpos|Hzero];
    [destruct (Z.ltb_spec (Z.of_nat (String.length s)) 19) as [Hshort|Hlong]|];
    simpl andb; cbv iota.
  - (* the fast path *)
    destruct s as [|c rest]; [reflexivity|].
    rewrite decimal_integer_unfold. cbv zeta.
    rewrite (orb_comm (Ascii.eqb c "+")).
    assert (Hds : (String.length
                     (if Ascii.eqb c "-" || Ascii.eqb c "+" then rest
                      else String c rest) < 19)%nat).
    { simpl String.length in Hshort. destruct (_ || _); simpl String.length; lia. }
    assert (Hne : Ascii.eqb c "-" || Ascii.eqb c "+" = false ->
                  (if Ascii.eqb c "-" || Ascii.eqb c "+" then rest
                   else String c rest) <> "").
    { intros ->. discriminate. }
    revert Hds Hne.
    generalize (if Ascii.eqb c "-" || Ascii.eqb c "+" then rest else String c rest).
    intros ds Hds Hne.
    rewrite (fast_stage _ (Ascii.eqb c "-") ds Hds).
    destruct ds as [|c' ds'].
    + destruct (_ || _); [reflexivity|]. exfalso. apply Hne; reflexivity.
    + change (String.eqb (String c' ds') "") with false.
      replace (Z.of_nat (String.length (String c' ds')) <? 1) with false
        by (symmetry; apply Z.ltb_ge; simpl String.length; lia).
      rewrite andb_false_r. simpl negb. rewrite andb_true_l.
      destruct (all_digits (String c' ds')) eqn:Hd; [|reflexivity].
      rewrite (short_in_int_range _ (Ascii.eqb c "-") Hd Hds). reflexivity.
  - (* long inputs: ParseInt *)
    pose proof (ParseInt_decimal s) as H.
    destruct (decimal_integer s) as [v|].
    + rewrite H. destruct (in_int_range v); reflexivity.
    + destruct (ParseInt s) as [|[]]; [discriminate | reflexivity].
  - (* the empty string *)
    destruct s; [reflexivity | simpl String.length in Hzero; lia].
Qed.

(** C8, amended: a string that represents a base-10 integer, with an
    optional sign, is parsed to exactly that integer when the integer fits
    the 64-bit [int] of the host, and is rejected with a range error when it
    does not; every other string, the empty one included, is rejected. *)
Theorem parseID_decimal s :
  match decimal_integer s with
  | Some v =>
      parseID s
      = if in_int_range v then Ok v else Err (MkNumError "Atoi" s ErrRange)
  | None => is_ok (parseID s) = false
  end.
Proof. exact (Atoi_decimal s). Qed.

(** C8, as stated, fails: 9223372036854775808 is a base-10 integer, and the
    validator rejects the string that represents it. *)
Lemma parseID_counterexample :
  decimal_integer "9223372036854775808" = Some 9223372036854775808
  /\ parseID "9223372036854775808"
     = Err (MkNumError "Atoi" "9223372036854775808" ErrRange).
Proof. split; reflexivity. Qed.

Example parseID_42 : parseID "42" = Ok 42.
Proof. reflexivity. Qed.
Example parseID_negative : parseID "-17" = Ok (-17).
Proof. reflexivity. Qed.
Example parseID_plus : parseID "+007" = Ok 7.
Proof. reflexivity. Qed.
Example parseID_abc : is_ok (parseID "abc") = false.
Proof. reflexivity. Qed.
Example parseID_empty : is_ok (parseID "") = false.
Proof. reflexivity. Qed.
Example parseID_sign_only : is_ok (parseID "-") = false.
Proof. reflexivity. Qed.
Example parseID_max : parseID "9223372036854775807" = Ok maxInt.
Proof. reflexivity. Qed.
Example parseID_min : parseID "-9223372036854775808" = Ok minInt.
Proof. reflexivity. Qed.
Example parseID_padded : parseID "00000000000000000000000000012" = Ok 12.
Proof. reflexivity. Qed.

End Parsing.

(** ** Formatting with [%d] and reading back *)

Section Formatting.

Lemma string_of_uint_digits d :
  all_digits (NilEmpty.string_of_uint d) = true.
Proof. induction d; simpl; auto. Qed.

Lemma string_of_uint_value d : forall acc,
  digits_value (NilEmpty.string_of_uint d) acc = uint_value d acc.
Proof. induction d; intros acc; simpl; auto; rewrite IHd; reflexivity. Qed.

Lemma of_uint_acc_value d : forall acc,
  Z.pos (Pos.of_uint_acc d acc) = uint_value d (Z.pos acc).
Proof.
  induction d; intros acc; simpl; auto; rewrite IHd; f_equal; lia.
Qed.

Lemma of_uint_value d : Z.of_uint d = uint_value d 0.
Proof.
  unfold Z.of_uint.
  induction d; simpl; auto; rewrite of_uint_acc_value; reflexivity.
Qed.

Lemma nilzero_digits d :
  NilZero.string_of_uint d <> ""
  /\ all_digits (NilZero.string_of_uint d) = true
  /\ digits_value (NilZero.string_of_uint d) 0 = Z.of_uint d.
Proof.
  rewrite of_uint_value.
  destruct d; simpl NilZero.string_of_uint;
    (split; [discriminate|]); split;
    solve [ reflexivity
          | apply (string_of_uint_digits (_ d))
          | apply string_of_uint_digits
          | rewrite <- string_of_uint_value; reflexivity ].
Qed.

Lemma digit_not_sign c :
  is_digit c = true -> Ascii.eqb c "-" = false /\ Ascii.eqb c "+" = false.
Proof.
  intros H. split; apply Ascii.eqb_neq; intros ->; discriminate.
Qed.

Lemma decimal_integer_digits ds :
  ds <> "" -> all_digits ds = true ->
  decimal_integer ds = Some (digits_value ds 0).
Proof.
  intros Hne Hd. destruct ds as [|c ds]; [congruence|].
  rewrite decimal_integer_unfold.
  simpl in Hd. apply andb_true_iff in Hd as [Hc Hd].
  destruct (digit_not_sign c Hc) as [-> ->]. cbv zeta. simpl orb. cbv match.
  simpl. rewrite Hc, Hd. reflexivity.
Qed.

Lemma decimal_integer_minus ds :
  ds <> "" -> all_digits ds = true ->
  decimal_integer (String "-" ds) = Some (- digits_value ds 0).
Proof.
  intros Hne Hd. rewrite decimal_integer_unfold.
  cbv zeta. change (Ascii.eqb "-" "-") with true.
  change (Ascii.eqb "-" "+") with false. simpl orb. cbv match.
  destruct (String.eqb_spec ds ""); [congruence|]. rewrite Hd. reflexivity.
Qed.

(** What [%d] prints reads back as the number printed. *)
Lemma decimal_integer_fmt_d z : decimal_integer (fmt_d z) = Some z.
Proof.
  unfold fmt_d. rewrite <- (DecimalZ.of_to z) at 2.
  destruct (Z.to_int z) as [d|d]; simpl NilZero.string_of_int; simpl Z.of_int;
    destruct (nilzero_digits d) as (Hne & Hd & <-).
  - apply decimal_integer_digits; assumption.
  - apply decimal_integer_minus; assumption.
Qed.

Lemma fmt_d_inj z1 z2 : fmt_d z1 = fmt_d z2 -> z1 = z2.
Proof.
  intros H. pose proof (decimal_integer_fmt_d z1) as H1.
  rewrite H, decimal_integer_fmt_d in H1. congruence.
Qed.

(** An identifier printed into its key reads back as itself. *)
Lemma parseID_fmt_d z : in_int_range z = true -> parseID (fmt_d z) = Ok z.
Proof.
  intros Hz. pose proof (Atoi_decimal (fmt_d z)) as H.
  rewrite decimal_integer_fmt_d, Hz in H. exact H.
Qed.

End Formatting.

(** ** The store and the write path *)

Section WritePath.

Implicit Types (d : gmap string redis.entry) (w : World) (id : Z).

Lemma set_redis_id w : set_redis (w_redis w) w = w.
Proof. destruct w; reflexivity. Qed.

Lemma append_inv_head (p s1 s2 : string) :
  (p ++ s1 = p ++ s2)%string -> s1 = s2.
Proof. induction p as [|a p IH]; simpl; [auto|]. intros [= H]. auto. Qed.

Lemma request_key_inj id1 id2 : request_key id1 = request_key id2 -> id1 = id2.
Proof.
  unfold request_key. intros H. apply fmt_d_inj. eapply append_inv_head, H.
Qed.

Lemma glob_star_any s : redis.glob "*" s = true.
Proof.
  induction s as [|a s IH]; [reflexivity|].
  simpl in *. exact IH.
Qed.

Lemma request_key_tracked id : redis.glob tracked_pattern (request_key id) = true.
Proof. unfold request_key, tracked_pattern. simpl. apply glob_star_any. Qed.

Lemma lookup_live_Some now key d e :
  redis.lookup_live now key d = Some e <-> d !! key = Some e /\ redis.live now e = true.
Proof.
  unfold redis.lookup_live. destruct (d !! key) as [e'|]; [|split; [discriminate | intros [? _]; discriminate]].
  destruct (redis.live now e') eqn:E; split.
  - intros [= ->]. auto.
  - intros [[= ->] _]. reflexivity.
  - discriminate.
  - intros [[= ->] ?]. congruence.
Qed.

Lemma marker_live now t : t < now + 60 * 1000 -> redis.live t (marker now) = true.
Proof. intros H. unfold redis.live, marker. simpl. apply Z.leb_le. lia. Qed.

(** The three ways a call of [trackUniqueRequest] can go. *)
Lemma track_fault err now id w :
  trackUniqueRequest (Some err) now id w
  = (log_Printf ("Error interacting with Redis: " ++ err) w, Err err).
Proof. reflexivity. Qed.

Lemma track_new now id w :
  redis.lookup_live now (request_key id) (w_redis w) = None ->
  trackUniqueRequest None now id w
  = (set_redis (<[request_key id := marker now]> (w_redis w)) w, Ok true).
Proof.
  intros H. unfold trackUniqueRequest, SetNX, redis.set_nx. rewrite H. reflexivity.
Qed.

Lemma track_seen now id w e :
  redis.lookup_live now (request_key id) (w_redis w) = Some e ->
  trackUniqueRequest None now id w = (w, Ok false).
Proof.
  intros H. unfold trackUniqueRequest, SetNX, redis.set_nx. rewrite H.
  simpl. rewrite set_redis_id. reflexivity.
Qed.

(** A call touches no key but the one of its identifier. *)
Lemma track_other_key f now id w key :
  key <> request_key id ->
  w_redis (trackUniqueRequest f now id w).1 !! key = w_redis w !! key.
Proof.
  intros Hne. destruct f as [err|]; [reflexivity|].
  destruct (redis.lookup_live now (request_key id) (w_redis w)) as [e|] eqn:E.
  - rewrite (track_seen _ _ _ _ E). reflexivity.
  - rewrite (track_new _ _ _ E). simpl. apply lookup_insert_ne. congruence.
Qed.

(** While its marker is live, calls leave the entry of an identifier as it
    is. *)
Lemma track_keeps_marker f now id' w id t0 :
  w_redis w !! request_key id = Some (marker t0) ->
  (id' = id -> now < t0 + 60 * 1000) ->
  w_redis (trackUniqueRequest f now id' w).1 !! request_key id = Some (marker t0).
Proof.
  intros Hm Hnow. destruct (Z.eq_dec id' id) as [->|Hne].
  - destruct f as [err|]; [exact Hm|].
    rewrite (track_seen now id w (marker t0)); [exact Hm|].
    apply lookup_live_Some. split; [exact Hm|]. apply marker_live. auto.
  - rewrite track_other_key; [exact Hm|].
    intros E. apply request_key_inj in E. congruence.
Qed.

Lemma track_all_keeps_marker calls : forall w id t0,
  w_redis w !! request_key id = Some (marker t0) ->
  (forall f now, (f, now, id) ∈ calls -> now < t0 + 60 * 1000) ->
  w_redis (track_all calls w) !! request_key id = Some (marker t0).
Proof.
  induction calls as [|[[f now] id'] calls IH]; intros w id t0 Hm Hcalls;
    [exact Hm|].
  simpl. apply IH.
  - apply track_keeps_marker; [exact Hm|].
    intros ->. apply (Hcalls f). left.
  - intros f' now' Hin. apply (Hcalls f'). right. exact Hin.
Qed.


(** C4: the first [trackUniqueRequest] of an identifier whose key is not
    live returns true and stores ["request_id:" ++ id] with the marker and
    an expiry one minute ahead; from then on, whatever other calls come in
    between, every call for the same identifier made before the expiry (and
    with no deletion in between) returns false. *)
Theorem track_first_true_then_false id t0 w :
  redis.lookup_live t0 (request_key id) (w_redis w) = None ->
  let w1 := (trackUniqueRequest None t0 id w).1 in
  (trackUniqueRequest None t0 id w).2 = Ok true
  /\ w_redis w1
     = <[("request_id:" ++ fmt_d id)%string :=
           {| redis.value := "1";
              redis.expire_at := Some (t0 + Minute / Millisecond) |}]> (w_redis w)
  /\ forall calls t,
       (forall f now, (f, now, id) ∈ calls -> now < t0 + Minute / Millisecond) ->
       t < t0 + Minute / Millisecond ->
       trackUniqueRequest None t id (track_all calls w1)
       = (track_all calls w1, Ok false).
Proof.
  intros Hnew. rewrite (track_new _ _ _ Hnew). cbv zeta. simpl fst. simpl snd.
  split; [reflexivity|]. split; [reflexivity|].
  intros calls t Hcalls Ht.
  apply (track_seen _ _ _ (marker t0)).
  apply lookup_live_Some. split; [|apply marker_live; exact Ht].
  apply track_all_keeps_marker; [|exact Hcalls].
  simpl. apply lookup_insert_eq.
Qed.

Lemma track_first_true_then_false_witness :
  redis.lookup_live 0 (request_key 42) (w_redis w0) = None
  /\ (trackUniqueRequest None 0 42 w0).2 = Ok true
  /\ trackUniqueRequest None 59999 42
       (track_all [(None, 10, 7); (None, 20, 42); (Some "timeout", 30, 42)]
          (trackUniqueRequest None 0 42 w0).1)
     = (track_all [(None, 10, 7); (None, 20, 42); (Some "timeout", 30, 42)]
          (trackUniqueRequest None 0 42 w0).1, Ok false).
Proof.
  assert (H : redis.lookup_live 0 (request_key 42) (w_redis w0) = None)
    by reflexivity.
  split; [exact H|].
  destruct (track_first_true_then_false 42 0 w0 H) as (H1 & _ & H3).
  split; [exact H1|]. apply H3.
  - intros f now Hin. set_unfold in Hin.
    destruct Hin as [[=]|[[= -> ->]|[[= -> ->]|[]]]]; reflexivity.
  - reflexivity.
Defined.


Lemma parseID_nonempty s id : parseID s = Ok id -> String.eqb s "" = false.
Proof. destruct s; [discriminate | reflexivity]. Qed.

Lemma trigger_keeps_redis env endpoint w :
  w_redis (triggerEndpoint env endpoint w).1 = w_redis w.
Proof.
  unfold triggerEndpoint.
  destruct (e_marshal env); [destruct (e_post env)|]; reflexivity.
Qed.

Lemma trigger_fails_iff env endpoint w :
  (triggerEndpoint env endpoint w).2 = None
  <-> is_ok (e_marshal env) && is_ok (e_post env) = true.
Proof.
  unfold triggerEndpoint.
  destruct (e_marshal env); [destruct (e_post env)|]; simpl; split;
    congruence.
Qed.

(** The reply of the handler, case by case. *)
Lemma handler_reply env r w :
  let resp := (RequestHandler env r w).2 in
  match parseID (query_id r) with
  | Err _ => resp = reply_of Invalid
  | Ok id =>
      match (trackUniqueRequest (e_setnx env) (e_now env) id w).2 with
      | Err _ => resp = reply_of StoreError
      | Ok false => resp = reply_of Duplicate
      | Ok true =>
          resp = if notification_fails env r then reply_of StoreError
                 else reply_of Accepted
      end
  end.
Proof.
  cbv zeta. unfold RequestHandler.
  destruct (parseID (query_id r)) as [id|e] eqn:Hid.
  - rewrite (parseID_nonempty _ _ Hid).
    destruct (trackUniqueRequest (e_setnx env) (e_now env) id w)
      as [w1 [[|]|err]]; simpl snd; try reflexivity.
    unfold notification_fails.
    destruct (String.eqb (query_endpoint r) ""); simpl negb; simpl andb;
      [reflexivity|].
    pose proof (trigger_fails_iff env (query_endpoint r) w1) as Ht.
    destruct (triggerEndpoint env (query_endpoint r) w1) as [w2 [err|]];
      simpl in *.
    + destruct (is_ok (e_marshal env) && is_ok (e_post env)); [|reflexivity].
      destruct Ht as [_ Ht]. discriminate (Ht eq_refl).
    + destruct Ht as [Ht _]. rewrite (Ht eq_refl). reflexivity.
  - destruct (String.eqb (query_id r) ""); reflexivity.
Qed.

(** C2, amended: the handler answers bad request when validation fails;
    otherwise internal error when the store call errors; otherwise Duplicate
    when [trackUniqueRequest] returns false; otherwise success, unless an
    endpoint was supplied and its notification failed, in which case the
    answer is internal error as well. *)
Theorem handler_outcome env r w :
  let resp := (RequestHandler env r w).2 in
  match parseID (query_id r) with
  | Err _ => resp = reply_of Invalid
  | Ok id =>
      match (trackUniqueRequest (e_setnx env) (e_now env) id w).2 with
      | Err _ => resp = reply_of StoreError
      | Ok false => resp = reply_of Duplicate
      | Ok true =>
          resp = if notification_fails env r then reply_of StoreError
                 else reply_of Accepted
      end
  end.
Proof. exact (handler_reply env r w). Qed.

(** C2, as stated, fails: identifier 1 is valid and new, the store answers,
    and still the reply is not the success reply, because the callback
    endpoint could not be reached. *)
Lemma handler_outcome_counterexample :
  parseID "1" = Ok 1
  /\ (trackUniqueRequest None 0 1 w0).2 = Ok true
  /\ (RequestHandler (unreachable 0) (submit_notify "1" "http://callback") w0).2
     = reply_of StoreError
  /\ reply_of StoreError <> reply_of Accepted.
Proof. repeat split; try reflexivity. discriminate. Qed.

(** C1, amended: when the identifier is valid and newly recorded and the
    notification POST fails, the handler answers internal error instead of
    success; the insert already made in the store is not undone: the
    identifier stays recorded, with its one-minute expiry. *)
Theorem failed_notification_internal_error env r w id err :
  parseID (query_id r) = Ok id ->
  (trackUniqueRequest (e_setnx env) (e_now env) id w).2 = Ok true ->
  query_endpoint r <> "" ->
  e_post env = Err err ->
  (RequestHandler env r w).2 = http_Error "failed" StatusInternalServerError
  /\ w_redis (RequestHandler env r w).1 !! request_key id
     = Some {| redis.value := "1";
               redis.expire_at := Some (e_now env + Minute / Millisecond) |}.
Proof.
  intros Hid Hnew Hep Hpost. split.
  - pose proof (handler_reply env r w) as H. cbv zeta in H.
    rewrite Hid, Hnew in H. rewrite H. unfold notification_fails.
    destruct (String.eqb_spec (query_endpoint r) ""); [contradiction|].
    rewrite Hpost. simpl. rewrite andb_false_r. reflexivity.
  - change {| redis.value := "1";
              redis.expire_at := Some (e_now env + Minute / Millisecond) |}
      with (marker (e_now env)).
    unfold RequestHandler. rewrite (parseID_nonempty _ _ Hid), Hid.
    destruct (e_setnx env) as [e|] eqn:Hf;
      [rewrite track_fault in Hnew; discriminate|].
    destruct (redis.lookup_live (e_now env) (request_key id) (w_redis w))
      as [e|] eqn:Hl.
    { rewrite (track_seen _ _ _ _ Hl) in Hnew. discriminate. }
    rewrite (track_new _ _ _ Hl).
    destruct (String.eqb_spec (query_endpoint r) ""); [contradiction|].
    simpl negb. cbv iota.
    pose proof (trigger_keeps_redis env (query_endpoint r)
                  (set_redis (<[request_key id:=marker (e_now env)]> (w_redis w)) w))
      as Hk.
    destruct (triggerEndpoint _ _ _) as [w2 [e|]]; simpl in *;
      rewrite Hk; apply lookup_insert_eq.
Qed.

Lemma failed_notification_internal_error_witness :
  parseID (query_id (submit_notify "42" "http://callback")) = Ok 42
  /\ (trackUniqueRequest None 5 42 w0).2 = Ok true
  /\ (RequestHandler (unreachable 5) (submit_notify "42" "http://callback") w0).2
     = http_Error "failed" StatusInternalServerError
  /\ w_redis (RequestHandler (unreachable 5) (submit_notify "42" "http://callback") w0).1
       !! request_key 42
     = Some (marker 5).
Proof.
  split; [reflexivity|]. split; [reflexivity|].
  destruct (failed_notification_internal_error
              (unreachable 5) (submit_notify "42" "http://callback") w0 42
              "connection refused")
    as (H1 & H2); try reflexivity; [discriminate|].
  split; [exact H1 | exact H2].
Defined.

(** C1, as stated, fails: identifier 42 is valid and newly recorded, the
    POST to the endpoint fails, and the reply is the internal error, not the
    success reply. *)
Lemma failed_notification_counterexample :
  parseID "42" = Ok 42
  /\ (trackUniqueRequest None 5 42 w0).2 = Ok true
  /\ e_post (unreachable 5) = Err "connection refused"
  /\ status (RequestHandler (unreachable 5) (submit_notify "42" "http://callback") w0).2
     = StatusInternalServerError
  /\ (RequestHandler (unreachable 5) (submit_notify "42" "http://callback") w0).2
     <> {| status := StatusOK; body := "ok" |}.
Proof. repeat split; try reflexivity. discriminate. Qed.

(** C10: [triggerEndpoint] returns no error whenever the POST got a reply,
    whatever its status code; an error it returns is the one of the JSON
    encoding or the one of a POST that got no reply. *)
Theorem trigger_ignores_status env endpoint w :
  (forall jsonData statusCode,
      e_marshal env = Ok jsonData -> e_post env = Ok statusCode ->
      (triggerEndpoint env endpoint w).2 = None)
  /\ (forall err,
        (triggerEndpoint env endpoint w).2 = Some err ->
        e_marshal env = Err err
        \/ (is_ok (e_marshal env) = true /\ e_post env = Err err)).
Proof.
  unfold triggerEndpoint. split.
  - intros jsonData statusCode -> ->. reflexivity.
  - intros err. destruct (e_marshal env) as [jsonData|e]; [|intros [= ->]; auto].
    destruct (e_post env) as [statusCode|e]; [discriminate|].
    intros [= ->]. auto.
Qed.

Lemma trigger_ignores_status_witness :
  e_post (answering 0 500) = Ok 500
  /\ (triggerEndpoint (answering 0 500) "http://callback" w0).2 = None
  /\ (triggerEndpoint (answering 0 404) "http://callback" w0).2 = None.
Proof.
  split; [reflexivity|]. split.
  - apply (proj1 (trigger_ignores_status (answering 0 500) "http://callback" w0)
             "{}" 500); reflexivity.
  - apply (proj1 (trigger_ignores_status (answering 0 404) "http://callback" w0)
             "{}" 404); reflexivity.
Defined.

End WritePath.

(** ** The aggregator *)

Section Aggregator.

Implicit Types (d : gmap string redis.entry) (w : World).

Lemma Keys_ok f now pattern d keys :
  Keys f now pattern d = Ok keys -> f = None /\ keys = redis.keys now pattern d.
Proof. destruct f; simpl; [discriminate|]. intros [= <-]. auto. Qed.

(** A cycle whose enumeration succeeds, step by step. *)
Lemma cycle_ok env w :
  w_mutex w = false -> t_keys env = None ->
  let keys := redis.keys (t_now env) tracked_pattern (w_redis w) in
  let n := Z.of_nat (length keys) in
  exists w',
    cycle env w = Some w'
    /\ w_redis w' = cleanup (t_del env) keys (w_redis w)
    /\ w_kafka w'
       = match t_produce env with
         | None => (w_kafka w ++ [{| topic := kafkaTopic; payload := report_text n |}])%list
         | Some _ => w_kafka w
         end
    /\ w_file w'
       = match t_write env with
         | None => (w_file w ++ (report_text n ++ nl))%string
         | Some _ => w_file w
         end
    /\ w_mutex w' = false.
Proof.
  intros Hm Hk. cbv zeta. unfold cycle. rewrite Hm. simpl w_redis.
  unfold Keys. rewrite Hk.
  destruct (t_produce env) as [e1|], (t_write env) as [e2|]; simpl;
    eexists; (split; [reflexivity|]); simpl; auto.
Qed.

(** A cycle whose enumeration fails. *)
Lemma cycle_skipped env w err :
  w_mutex w = false -> t_keys env = Some err ->
  cycle env w
  = Some (log_Printf ("Error fetching keys from Redis: " ++ err) w).
Proof.
  intros Hm Hk. unfold cycle. rewrite Hm. unfold Keys. rewrite Hk.
  destruct w; simpl in *. subst. reflexivity.
Qed.

Lemma cycle_runs env w : w_mutex w = false -> cycle env w <> None.
Proof.
  intros Hm. destruct (t_keys env) as [err|] eqn:Hk.
  - rewrite (cycle_skipped env w err Hm Hk). discriminate.
  - destruct (cycle_ok env w Hm Hk) as (w' & -> & _). discriminate.
Qed.

(** C6: when the enumeration of the keys fails, the cycle publishes
    nothing, appends nothing to the log file and deletes nothing; it logs
    the error, releases the mutex and the loop goes on with the next tick,
    which finds the mutex free. *)
Theorem failed_enumeration_skips_cycle env w err :
  w_mutex w = false ->
  t_keys env = Some err ->
  exists w',
    cycle env w = Some w'
    /\ w_kafka w' = w_kafka w
    /\ w_file w' = w_file w
    /\ w_redis w' = w_redis w
    /\ w_log w' = (w_log w ++ [("Error fetching keys from Redis: " ++ err)%string])%list
    /\ w_mutex w' = false
    /\ (forall rest,
          LogUniqueRequests (env :: rest) w = LogUniqueRequests rest w')
    /\ (forall next, cycle next w' <> None).
Proof.
  intros Hm Hk. eexists. split; [apply cycle_skipped; eassumption|].
  repeat split; try reflexivity; try assumption.
  - intros rest. simpl. rewrite (cycle_skipped env w err Hm Hk). reflexivity.
  - intros next. apply cycle_runs. exact Hm.
Qed.

Lemma failed_enumeration_skips_cycle_witness :
  w_mutex (serve_all [(calm 0, submit "1")] w0) = false
  /\ t_keys (keys_down 60000) = Some "dial tcp: connection refused"
  /\ exists w',
       cycle (keys_down 60000) (serve_all [(calm 0, submit "1")] w0) = Some w'
       /\ w_kafka w' = [] /\ w_file w' = ""
       /\ w_redis w' = w_redis (serve_all [(calm 0, submit "1")] w0).
Proof.
  split; [reflexivity|]. split; [reflexivity|].
  destruct (failed_enumeration_skips_cycle (keys_down 60000)
              (serve_all [(calm 0, submit "1")] w0)
              "dial tcp: connection refused" eq_refl eq_refl)
    as (w' & H1 & H2 & H3 & H4 & _).
  exists w'. repeat split; assumption.
Defined.

(** C9: a cycle whose enumeration succeeded reports the length of its
    snapshot to both sinks: the log file, if the write goes through, grows
    by exactly the line ["Unique request count in last minute: <count>\n"],
    and the producer, if it takes the message, gets one message carrying the
    same count on the topic of the service. *)
Theorem cycle_reports_to_both_sinks env w keys :
  w_mutex w = false ->
  Keys (t_keys env) (t_now env) "request_id:*" (w_redis w) = Ok keys ->
  exists w',
    cycle env w = Some w'
    /\ (t_write env = None ->
        w_file w'
        = (w_file w ++ "Unique request count in last minute: "
             ++ fmt_d (Z.of_nat (length keys)) ++ nl)%string)
    /\ (t_produce env = None ->
        w_kafka w'
        = (w_kafka w
           ++ [{| topic := "unique-request-count";
                  payload := ("Unique request count in last minute: "
                              ++ fmt_d (Z.of_nat (length keys)))%string |}])%list).
Proof.
  intros Hm Hk. apply Keys_ok in Hk as [Hf ->].
  destruct (cycle_ok env w Hm Hf) as (w' & Hc & _ & Hkafka & Hfile & _).
  exists w'. split; [exact Hc|]. split.
  - intros Hw. rewrite Hw in Hfile. exact Hfile.
  - intros Hp. rewrite Hp in Hkafka. exact Hkafka.
Qed.

Lemma cycle_reports_to_both_sinks_witness :
  w_mutex (serve_all [(calm 0, submit "1"); (calm 1, submit "2"); (calm 2, submit "3")] w0)
  = false
  /\ exists w',
       cycle (quiet_tick 30000)
         (serve_all [(calm 0, submit "1"); (calm 1, submit "2"); (calm 2, submit "3")] w0)
       = Some w'
       /\ w_file w' = ("Unique request count in last minute: 3" ++ nl)%string
       /\ w_kafka w'
          = [{| topic := "unique-request-count";
                payload := "Unique request count in last minute: 3" |}].
Proof.
  split; [reflexivity|].
  destruct (cycle_reports_to_both_sinks (quiet_tick 30000)
              (serve_all [(calm 0, submit "1"); (calm 1, submit "2");
                          (calm 2, submit "3")] w0)
              (redis.keys 30000 tracked_pattern
                 (w_redis (serve_all [(calm 0, submit "1"); (calm 1, submit "2");
                                      (calm 2, submit "3")] w0)))
              eq_refl eq_refl)
    as (w' & H1 & H2 & H3).
  exists w'. split; [exact H1|]. split.
  - rewrite (H2 eq_refl). vm_compute. reflexivity.
  - rewrite (H3 eq_refl). vm_compute. reflexivity.
Defined.


(** *** What serving requests does to the store *)

Lemma handler_redis env r w :
  w_redis (RequestHandler env r w).1
  = match parseID (query_id r) with
    | Ok id => w_redis (trackUniqueRequest (e_setnx env) (e_now env) id w).1
    | Err _ => w_redis w
    end.
Proof.
  unfold RequestHandler.
  destruct (parseID (query_id r)) as [id|e] eqn:Hid.
  - rewrite (parseID_nonempty _ _ Hid).
    destruct (trackUniqueRequest (e_setnx env) (e_now env) id w)
      as [w1 [[|]|err]]; simpl; try reflexivity.
    destruct (negb (String.eqb (query_endpoint r) "")); [|reflexivity].
    pose proof (trigger_keeps_redis env (query_endpoint r) w1) as Hk.
    destruct (triggerEndpoint env (query_endpoint r) w1) as [w2 [e|]];
      simpl in *; exact Hk.
  - destruct (String.eqb (query_id r) ""); reflexivity.
Qed.

Lemma handler_mutex env r w : w_mutex (RequestHandler env r w).1 = w_mutex w.
Proof.
  unfold RequestHandler, trackUniqueRequest, triggerEndpoint, SetNX.
  destruct (String.eqb (query_id r) ""); [reflexivity|].
  destruct (parseID (query_id r)); [|reflexivity].
  destruct (e_setnx env); [reflexivity|].
  destruct (redis.set_nx _ _ _ _ _) as [d' [|]]; [|reflexivity].
  destruct (negb _); [|reflexivity].
  destruct (e_marshal env); [destruct (e_post env)|]; reflexivity.
Qed.

Lemma serve_all_cons env r reqs w :
  serve_all ((env, r) :: reqs) w = serve_all reqs (RequestHandler env r w).1.
Proof.
  unfold serve_all. simpl.
  destruct (RequestHandler env r w) as [w1 resp]. simpl.
  destruct (run _ w1). reflexivity.
Qed.

Lemma serve_all_mutex reqs : forall w, w_mutex (serve_all reqs w) = w_mutex w.
Proof.
  induction reqs as [|[env r] reqs IH]; intros w; [reflexivity|].
  rewrite serve_all_cons, IH. apply handler_mutex.
Qed.

(** *** The clean-up loop *)

Lemma Del_lookup f k d key :
  (Del f k d).1 !! key
  = if decide (key = k /\ f = None) then None else d !! key.
Proof.
  unfold Del, redis.del. destruct f as [e|]; simpl.
  - rewrite decide_False; [reflexivity|]. intros [_ ?]. discriminate.
  - destruct (decide (key = k)) as [->|Hne].
    + rewrite decide_True by auto. apply lookup_delete_eq.
    + rewrite decide_False by (intros [? _]; contradiction).
      apply lookup_delete_ne. congruence.
Qed.

Lemma cleanup_lookup f keys : forall d key,
  cleanup f keys d !! key
  = if decide (key ∈ keys /\ f key = None) then None else d !! key.
Proof.
  induction keys as [|k keys IH]; intros d key; cbn [cleanup].
  - destruct (decide (key ∈ [] /\ f key = None)) as [[H _]|];
      [inversion H | reflexivity].
  - rewrite IH, Del_lookup.
    destruct (decide (key ∈ keys /\ f key = None)) as [[Hin Hf]|Hn].
    + rewrite decide_True; [reflexivity|]. split; [right; exact Hin | exact Hf].
    + destruct (decide (key = k /\ f k = None)) as [[-> Hf]|Hk].
      * rewrite decide_True; [reflexivity|]. split; [left | exact Hf].
      * rewrite decide_False; [reflexivity|].
        intros [Hin Hf]. apply elem_of_cons in Hin as [->|Hin]; auto.
Qed.

(** *** Enumerating the keys *)

Lemma elem_of_keys now pattern d key :
  key ∈ redis.keys now pattern d
  <-> exists e, d !! key = Some e /\ redis.live now e = true
                /\ redis.glob pattern key = true.
Proof.
  unfold redis.keys. rewrite list_elem_of_fmap. split.
  - intros [[k e] [-> Hin]]. apply elem_of_map_to_list in Hin.
    apply map_lookup_filter_Some in Hin as [Hl [Hlive Hglob]].
    exists e. auto.
  - intros (e & Hl & Hlive & Hglob). exists (key, e). split; [reflexivity|].
    apply elem_of_map_to_list. apply map_lookup_filter_Some.
    split; [exact Hl|]. split; assumption.
Qed.

Lemma NoDup_keys now pattern d : NoDup (redis.keys now pattern d).
Proof. apply NoDup_fst_map_to_list. Qed.


(** *** Counting what was accepted *)

Global Instance request_key_Inj : Inj (=) (=) request_key.
Proof. intros id1 id2. apply request_key_inj. Qed.

Lemma tracks_serve T env r w ids0 :
  tracks T (w_redis w) ids0 -> NoDup ids0 ->
  e_now env <= T < e_now env + 60 * 1000 ->
  tracks T (w_redis (RequestHandler env r w).1)
         (ids0 ++ accepted_ids [(env, r)] w)
  /\ NoDup (ids0 ++ accepted_ids [(env, r)] w).
Proof.
  intros Htr Hnd Hnow. rewrite handler_redis. simpl accepted_ids.
  destruct (parseID (query_id r)) as [id|e];
    [|rewrite app_nil_r; auto].
  destruct (e_setnx env) as [err|];
    [rewrite track_fault, app_nil_r; auto|].
  destruct (redis.lookup_live (e_now env) (request_key id) (w_redis w))
    as [e|] eqn:Hl.
  { rewrite (track_seen _ _ _ _ Hl), app_nil_r. auto. }
  rewrite (track_new _ _ _ Hl). simpl fst. simpl w_redis.
  assert (Hfresh : w_redis w !! request_key id = None).
  { pose proof (Htr _ (request_key_tracked id)) as H.
    destruct (w_redis w !! request_key id) as [e|] eqn:He; [|reflexivity].
    destruct H as (_ & t & -> & Ht).
    assert (redis.lookup_live (e_now env) (request_key id) (w_redis w)
            = Some (marker t)) as Hl'.
    { apply lookup_live_Some. split; [exact He|]. apply marker_live. lia. }
    congruence. }
  assert (Hnotin : id ∉ ids0).
  { pose proof (Htr _ (request_key_tracked id)) as H. rewrite Hfresh in H.
    intros Hin. apply H. apply list_elem_of_fmap. eauto. }
  split.
  - intros key Hglob. specialize (Htr key Hglob).
    rewrite fmap_app. simpl.
    destruct (decide (key = request_key id)) as [->|Hne].
    + rewrite lookup_insert_eq. split.
      * apply elem_of_app. right. apply list_elem_of_singleton. reflexivity.
      * exists (e_now env). split; [reflexivity | exact Hnow].
    + rewrite lookup_insert_ne by congruence.
      destruct (w_redis w !! key) as [e|].
      * destruct Htr as [Hin Hm]. split; [|exact Hm].
        apply elem_of_app. left. exact Hin.
      * intros Hin. apply elem_of_app in Hin as [Hin|Hin]; [contradiction|].
        apply list_elem_of_singleton in Hin. contradiction.
  - apply NoDup_app. split; [exact Hnd|]. split; [|apply NoDup_singleton].
    intros x Hx Hx'. apply list_elem_of_singleton in Hx'. congruence.
Qed.

Lemma accepted_ids_cons env r reqs w :
  accepted_ids ((env, r) :: reqs) w
  = (accepted_ids [(env, r)] w
     ++ accepted_ids reqs (RequestHandler env r w).1)%list.
Proof.
  simpl. destruct (parseID (query_id r)); [|reflexivity].
  destruct (trackUniqueRequest _ _ _ _) as [w1 [[|]|err]]; reflexivity.
Qed.

Lemma tracks_serve_all T reqs : forall w ids0,
  tracks T (w_redis w) ids0 -> NoDup ids0 ->
  (forall er, er ∈ reqs -> e_now er.1 <= T < e_now er.1 + 60 * 1000) ->
  tracks T (w_redis (serve_all reqs w)) (ids0 ++ accepted_ids reqs w)
  /\ NoDup (ids0 ++ accepted_ids reqs w).
Proof.
  induction reqs as [|[env r] reqs IH]; intros w ids0 Htr Hnd Hwin.
  - simpl. rewrite app_nil_r. auto.
  - rewrite serve_all_cons, accepted_ids_cons, app_assoc.
    destruct (tracks_serve T env r w ids0 Htr Hnd) as [Htr' Hnd'].
    { apply (Hwin (env, r)). left. }
    apply IH; [exact Htr' | exact Hnd' |].
    intros er Hin. apply Hwin. right. exact Hin.
Qed.

Lemma tracks_keys T d ids key :
  tracks T d ids ->
  key ∈ redis.keys T tracked_pattern d <-> key ∈ request_key <$> ids.
Proof.
  intros Htr. rewrite elem_of_keys. split.
  - intros (e & Hl & _ & Hglob). specialize (Htr key Hglob).
    rewrite Hl in Htr. tauto.
  - intros Hin. apply list_elem_of_fmap in Hin as Hin'.
    destruct Hin' as (id & -> & _).
    specialize (Htr _ (request_key_tracked id)).
    destruct (d !! request_key id) as [e|]; [|contradiction].
    destruct Htr as (_ & t & -> & Ht).
    exists (marker t). split; [reflexivity|].
    split; [apply marker_live; lia | apply request_key_tracked].
Qed.

Lemma tracks_count T d ids :
  tracks T d ids -> NoDup ids ->
  length (redis.keys T tracked_pattern d) = length ids.
Proof.
  intros Htr Hnd. rewrite <- (length_fmap request_key ids).
  apply Permutation_length. apply NoDup_Permutation.
  - apply NoDup_keys.
  - apply NoDup_fmap_2; [apply _ | exact Hnd].
  - intros key. apply tracks_keys. exact Htr.
Qed.

Lemma tracks_nothing T d :
  (forall key, redis.glob tracked_pattern key = true -> d !! key = None) ->
  tracks T d [].
Proof. intros H key Hglob. rewrite (H key Hglob). simpl. apply not_elem_of_nil. Qed.

(** C3, amended: starting from a store with no tracked key, serve any
    requests, all within the minute before the snapshot; the cycle then
    reports the number of identifiers that were newly recorded, which are
    pairwise distinct, and every counted key whose [Del] goes through is
    absent from the store when the cycle ends. *)
Theorem cycle_counts_recent_ids reqs env w :
  w_mutex w = false ->
  (forall key, redis.glob tracked_pattern key = true -> w_redis w !! key = None) ->
  (forall er, er ∈ reqs ->
     e_now er.1 <= t_now env < e_now er.1 + Minute / Millisecond) ->
  t_keys env = None ->
  NoDup (accepted_ids reqs w)
  /\ exists w',
       cycle env (serve_all reqs w) = Some w'
       /\ reported (Z.of_nat (length (accepted_ids reqs w))) env
            (serve_all reqs w) w'
       /\ forall id,
            id ∈ accepted_ids reqs w ->
            t_del env (request_key id) = None ->
            w_redis w' !! request_key id = None.
Proof.
  intros Hm Hempty Hwin Hk.
  destruct (tracks_serve_all (t_now env) reqs w []
              (tracks_nothing _ _ Hempty) (NoDup_nil_2) Hwin) as [Htr Hnd].
  simpl in Htr, Hnd. split; [exact Hnd|].
  assert (Hm' : w_mutex (serve_all reqs w) = false)
    by (rewrite serve_all_mutex; exact Hm).
  destruct (cycle_ok env (serve_all reqs w) Hm' Hk)
    as (w' & Hc & Hredis & Hkafka & Hfile & _).
  cbv zeta in *. rewrite (tracks_count _ _ _ Htr Hnd) in Hkafka, Hfile.
  exists w'. split; [exact Hc|]. split; [split|].
  - intros Hp. rewrite Hp in Hkafka. exact Hkafka.
  - intros Hw. rewrite Hw in Hfile. exact Hfile.
  - intros id Hin Hdel. rewrite Hredis, cleanup_lookup.
    rewrite decide_True; [reflexivity|]. split; [|exact Hdel].
    apply (tracks_keys _ _ _ _ Htr). apply list_elem_of_fmap. eauto.
Qed.

Lemma cycle_counts_recent_ids_witness :
  w_mutex w0 = false
  /\ t_keys (quiet_tick 50000) = None
  /\ accepted_ids [(calm 0, submit "1"); (calm 10, submit "2");
                   (calm 20, submit "2"); (calm 30, submit "3")] w0
     = [1; 2; 3]
  /\ exists w',
       cycle (quiet_tick 50000)
         (serve_all [(calm 0, submit "1"); (calm 10, submit "2");
                     (calm 20, submit "2"); (calm 30, submit "3")] w0)
       = Some w'
       /\ reported 3 (quiet_tick 50000)
            (serve_all [(calm 0, submit "1"); (calm 10, submit "2");
                        (calm 20, submit "2"); (calm 30, submit "3")] w0) w'.
Proof.
  split; [reflexivity|]. split; [reflexivity|]. split; [reflexivity|].
  destruct (cycle_counts_recent_ids
              [(calm 0, submit "1"); (calm 10, submit "2");
               (calm 20, submit "2"); (calm 30, submit "3")]
              (quiet_tick 50000) w0 eq_refl)
    as (_ & w' & H1 & H2 & _).
  - intros key _. reflexivity.
  - intros er Hin. set_unfold in Hin.
    destruct Hin as [->|[->|[->|[->|[]]]]]; vm_compute; split; congruence.
  - reflexivity.
  - exists w'. split; [exact H1 | exact H2].
Defined.

(** C3, as stated, fails: identifiers 7 and 8 are both accepted after the
    start, yet the cycle that runs 61 seconds after the first of them
    reports 1, because the key of 7 has expired; and the key of 8, which
    is counted, is still in the store after the cycle, because its [Del]
    failed and the failure is ignored. *)
Lemma cycle_count_counterexample :
  accepted_ids [(calm 0, submit "7"); (calm 30000, submit "8")] w0 = [7; 8]
  /\ w_file <$> cycle (del_fails 61000 "request_id:8")
                  (serve_all [(calm 0, submit "7"); (calm 30000, submit "8")] w0)
     = Some ("Unique request count in last minute: 1" ++ nl)%string
  /\ (fun w' => w_redis w' !! "request_id:8")
       <$> cycle (del_fails 61000 "request_id:8")
             (serve_all [(calm 0, submit "7"); (calm 30000, submit "8")] w0)
     = Some (Some (marker 30000)).
Proof. repeat split; vm_compute; reflexivity. Qed.


(** *** Requests served while the clean-up loop runs *)

(** What a call does to a key depends on nothing but the entry of that
    key. *)
Lemma track_local f now id w w' key :
  w_redis w !! key = w_redis w' !! key ->
  w_redis (trackUniqueRequest f now id w).1 !! key
  = w_redis (trackUniqueRequest f now id w').1 !! key.
Proof.
  intros H. destruct (decide (key = request_key id)) as [->|Hne];
    [|rewrite !track_other_key by exact Hne; exact H].
  destruct f as [err|]; [exact H|].
  assert (Hl : redis.lookup_live now (request_key id) (w_redis w)
               = redis.lookup_live now (request_key id) (w_redis w'))
    by (unfold redis.lookup_live; rewrite H; reflexivity).
  destruct (redis.lookup_live now (request_key id) (w_redis w')) as [e|] eqn:Hl'.
  - rewrite (track_seen _ _ _ _ Hl), (track_seen _ _ _ _ Hl'). exact H.
  - rewrite (track_new _ _ _ Hl), (track_new _ _ _ Hl'). simpl.
    rewrite !lookup_insert_eq. reflexivity.
Qed.

Lemma handler_local env r w w' key :
  w_redis w !! key = w_redis w' !! key ->
  w_redis (RequestHandler env r w).1 !! key
  = w_redis (RequestHandler env r w').1 !! key.
Proof.
  intros H. rewrite !handler_redis.
  destruct (parseID (query_id r)); [apply track_local|]; exact H.
Qed.

Lemma run_cons ev evs w : (run (ev :: evs) w).1 = (run evs (step ev w).1).1.
Proof.
  simpl. destruct (step ev w) as [w1 out1]. simpl.
  destruct (run evs w1). reflexivity.
Qed.

Lemma step_served env r w : (step (Served env r) w).1 = (RequestHandler env r w).1.
Proof. simpl. destruct (RequestHandler env r w). reflexivity. Qed.

Lemma run_frame evs key : forall w w',
  key ∉ deleted_keys evs ->
  w_redis w !! key = w_redis w' !! key ->
  w_redis (run evs w).1 !! key
  = w_redis (run (handlers_only evs) w').1 !! key.
Proof.
  induction evs as [|[env r|f k] evs IH]; intros w w' Hnot H.
  - exact H.
  - cbn [handlers_only]. rewrite !run_cons, !step_served.
    apply IH; [exact Hnot|]. apply handler_local. exact H.
  - cbn [handlers_only deleted_keys] in *. rewrite run_cons.
    apply not_elem_of_cons in Hnot as [Hne Hnot].
    apply IH; [exact Hnot|]. simpl. rewrite Del_lookup.
    rewrite decide_False by (intros [? _]; contradiction). exact H.
Qed.

Lemma keys_local now pattern d d' key :
  d !! key = d' !! key ->
  key ∈ redis.keys now pattern d <-> key ∈ redis.keys now pattern d'.
Proof. intros H. rewrite !elem_of_keys, H. reflexivity. Qed.

(** C5, amended: the delete step removes the keys of the snapshot (those
    whose [Del] goes through) and changes no other key; with requests
    served while the loop runs, every key outside the snapshot ends up
    exactly as the handlers alone would have left it, and so is enumerated
    by the next cycle exactly when it would have been without the delete
    step. *)
Theorem cleanup_spares_keys_outside_snapshot env w snapshot :
  w_mutex w = false ->
  Keys (t_keys env) (t_now env) tracked_pattern (w_redis w) = Ok snapshot ->
  (exists w',
      cycle env w = Some w'
      /\ forall key,
           w_redis w' !! key
           = if decide (key ∈ snapshot /\ t_del env key = None) then None
             else w_redis w !! key)
  /\ forall evs key,
       deleted_keys evs = snapshot ->
       key ∉ snapshot ->
       w_redis (run evs w).1 !! key
       = w_redis (run (handlers_only evs) w).1 !! key
       /\ forall next,
            key ∈ redis.keys next tracked_pattern (w_redis (run evs w).1)
            <-> key ∈ redis.keys next tracked_pattern
                        (w_redis (run (handlers_only evs) w).1).
Proof.
  intros Hm Hk. apply Keys_ok in Hk as [Hf ->]. split.
  - destruct (cycle_ok env w Hm Hf) as (w' & Hc & Hredis & _).
    exists w'. split; [exact Hc|]. intros key. rewrite Hredis.
    apply cleanup_lookup.
  - intros evs key Hdel Hnot.
    assert (H : w_redis (run evs w).1 !! key
                = w_redis (run (handlers_only evs) w).1 !! key).
    { apply run_frame; [rewrite Hdel; exact Hnot | reflexivity]. }
    split; [exact H|]. intros next. apply keys_local. exact H.
Qed.

Lemma cleanup_spares_keys_outside_snapshot_witness :
  w_mutex (serve_all [(calm 0, submit "1")] w0) = false
  /\ Keys None 1000 tracked_pattern (w_redis (serve_all [(calm 0, submit "1")] w0))
     = Ok ["request_id:1"]
  /\ w_redis (run [Served (calm 1001) (submit "2"); Deleted None "request_id:1"]
                  (serve_all [(calm 0, submit "1")] w0)).1 !! "request_id:2"
     = w_redis (run [Served (calm 1001) (submit "2")]
                    (serve_all [(calm 0, submit "1")] w0)).1 !! "request_id:2".
Proof.
  split; [reflexivity|]. split; [reflexivity|].
  destruct (cleanup_spares_keys_outside_snapshot (quiet_tick 1000)
              (serve_all [(calm 0, submit "1")] w0) ["request_id:1"]
              eq_refl eq_refl) as [_ H].
  destruct (H [Served (calm 1001) (submit "2"); Deleted None "request_id:1"]
              "request_id:2" eq_refl) as [H1 _].
  - intros Hin. apply list_elem_of_singleton in Hin. discriminate Hin.
  - exact H1.
Defined.

(** C5, as stated, fails: the key of identifier 7 is in the snapshot taken
    at 59 s and expires at 60 s; at 61 s, before the loop reaches it, 7 is
    submitted again and accepted, and the [Del] of the loop then removes the
    fresh entry, which the next cycle will not see. *)
Lemma cleanup_counterexample :
  Keys None 59000 tracked_pattern (w_redis (serve_all [(calm 0, submit "7")] w0))
  = Ok ["request_id:7"]
  /\ (run [Served (calm 61000) (submit "7"); Deleted None "request_id:7"]
          (serve_all [(calm 0, submit "7")] w0)).2
     = [reply_of Accepted]
  /\ w_redis (run [Served (calm 61000) (submit "7")]
                  (serve_all [(calm 0, submit "7")] w0)).1 !! "request_id:7"
     = Some (marker 61000)
  /\ w_redis (run [Served (calm 61000) (submit "7"); Deleted None "request_id:7"]
                  (serve_all [(calm 0, submit "7")] w0)).1 !! "request_id:7"
     = None
  /\ redis.keys 62000 tracked_pattern
       (w_redis (run [Served (calm 61000) (submit "7"); Deleted None "request_id:7"]
                     (serve_all [(calm 0, submit "7")] w0)).1)
     = [].
Proof. repeat split; vm_compute; reflexivity. Qed.

End Aggregator.

(** ** Concurrent submissions *)

Section Concurrency.

(** Handler goroutines meet only at the Redis server, where the [SetNX] of
    each is one atomic command: a concurrent execution of [N] calls is the
    execution of the calls in the order their commands reach the server. *)

Lemma track_results_duplicates id t0 calls : forall w,
  w_redis w !! request_key id = Some (marker t0) ->
  (forall c, c ∈ calls -> c.1.1 = None /\ c.2 = id /\ c.1.2 < t0 + 60 * 1000) ->
  track_results calls w = replicate (length calls) (Ok false).
Proof.
  induction calls as [|[[f now] id'] calls IH]; intros w Hm Hcalls;
    [reflexivity|].
  destruct (Hcalls (f, now, id')) as (Hf & Hid & Hnow); [left|].
  simpl in Hf, Hid, Hnow. subst f id'. simpl.
  rewrite (track_seen now id w (marker t0)).
  - f_equal. apply IH; [exact Hm|].
    intros c Hin. apply Hcalls. right. exact Hin.
  - apply lookup_live_Some. split; [exact Hm|]. apply marker_live. exact Hnow.
Qed.

(** Whatever the order in which [N] calls of [trackUniqueRequest] for one
    identifier reach the store within one window, the first to arrive gets
    true and the other [N - 1] get false. *)
Lemma track_results_one_true id w calls order :
  calls <> [] ->
  (forall c, c ∈ calls -> c.1.1 = None /\ c.2 = id) ->
  (forall c, c ∈ calls ->
     redis.lookup_live c.1.2 (request_key id) (w_redis w) = None) ->
  (forall c c', c ∈ calls -> c' ∈ calls -> c'.1.2 < c.1.2 + Minute / Millisecond) ->
  order ≡ₚ calls ->
  track_results order w = Ok true :: replicate (length calls - 1) (Ok false).
Proof.
  intros Hne Hsame Hnew Hwin Hperm.
  destruct order as [|[[f t0] id'] rest].
  { apply Permutation_nil_l in Hperm. congruence. }
  assert (Hin0 : (f, t0, id') ∈ calls) by (rewrite <- Hperm; left).
  destruct (Hsame _ Hin0) as [Hf Hid]. simpl in Hf, Hid. subst f id'.
  rewrite <- (Permutation_length Hperm). simpl length.
  replace (S (length rest) - 1)%nat with (length rest) by lia.
  simpl track_results.
  rewrite (track_new t0 id w (Hnew _ Hin0)). f_equal.
  apply (track_results_duplicates id t0).
  - simpl. apply lookup_insert_eq.
  - intros c Hin.
    assert (Hc : c ∈ calls) by (rewrite <- Hperm; right; exact Hin).
    destruct (Hsame _ Hc) as [Hf Hid].
    split; [exact Hf|]. split; [exact Hid|].
    apply (Hwin (None, t0, id) c Hin0 Hc).
Qed.

End Concurrency.

(** * Further properties of the write path *)

Section HandlerProperties.

Implicit Types (d : gmap string redis.entry) (w : World) (id : Z).

(** A string the validator rejects. *)
Lemma parseID_rejects s :
  (forall v, decimal_integer s = Some v -> in_int_range v = false) ->
  is_ok (parseID s) = false.
Proof.
  intros H. pose proof (Atoi_decimal s) as Hs. unfold parseID.
  destruct (decimal_integer s) as [v|]; [|exact Hs].
  rewrite (H v eq_refl) in Hs. rewrite Hs. reflexivity.
Qed.

(** X1: a request whose [id] is missing, is not a signed decimal number, or
    does not fit [int] is answered 400 and leaves the world exactly as it
    was: the store is not called and nothing is logged. *)
Theorem invalid_id_changes_nothing env r w :
  (forall v, decimal_integer (query_id r) = Some v -> in_int_range v = false) ->
  RequestHandler env r w = (w, http_Error "failed" StatusBadRequest).
Proof.
  intros H. apply parseID_rejects in H. unfold RequestHandler.
  destruct (String.eqb (query_id r) ""); [reflexivity|].
  destruct (parseID (query_id r)); [discriminate | reflexivity].
Qed.

Lemma invalid_id_changes_nothing_witness :
  RequestHandler (calm 0) (submit_notify "12a" "http://callback") w_shared
  = (w_shared, http_Error "failed" StatusBadRequest)
  /\ RequestHandler (calm 0) (submit "") w_shared
     = (w_shared, http_Error "failed" StatusBadRequest)
  /\ RequestHandler (calm 0) (submit "99999999999999999999") w_shared
     = (w_shared, http_Error "failed" StatusBadRequest).
Proof.
  split; [|split]; apply invalid_id_changes_nothing; intros v [= <-];
    reflexivity.
Defined.

Lemma duplicate_reply_world env r w id e :
  parseID (query_id r) = Ok id ->
  e_setnx env = None ->
  redis.lookup_live (e_now env) (request_key id) (w_redis w) = Some e ->
  RequestHandler env r w
  = (w, http_Error "failed: Duplicate" StatusConflict).
Proof.
  intros Hid Hf Hl. unfold RequestHandler.
  rewrite (parseID_nonempty _ _ Hid), Hid, Hf, (track_seen _ _ _ _ Hl).
  reflexivity.
Qed.

(** X2: a request for an identifier whose key is live is answered 409 and
    leaves the world exactly as it was: the expiry of the key is not
    refreshed, nothing is logged, and no notification is sent even when an
    endpoint is supplied. *)
Theorem duplicate_changes_nothing env r w id e :
  parseID (query_id r) = Ok id ->
  e_setnx env = None ->
  redis.lookup_live (e_now env) (request_key id) (w_redis w) = Some e ->
  RequestHandler env r w
  = (w, http_Error "failed: Duplicate" StatusConflict).
Proof. exact (duplicate_reply_world env r w id e). Qed.

Lemma duplicate_changes_nothing_witness :
  parseID "5" = Ok 5
  /\ redis.lookup_live 59000 (request_key 5) (w_redis w_shared) = Some (marker 0)
  /\ RequestHandler (calm 59000) (submit_notify "5" "http://callback") w_shared
     = (w_shared, http_Error "failed: Duplicate" StatusConflict).
Proof.
  split; [reflexivity|]. split; [reflexivity|].
  apply (duplicate_changes_nothing (calm 59000)
           (submit_notify "5" "http://callback") w_shared 5 (marker 0));
    reflexivity.
Defined.

Lemma trigger_frame env endpoint w :
  let w' := (triggerEndpoint env endpoint w).1 in
  w_redis w' = w_redis w /\ w_kafka w' = w_kafka w /\ w_file w' = w_file w
  /\ w_mutex w' = w_mutex w
  /\ exists line, w_log w' = (w_log w ++ [line])%list.
Proof.
  unfold triggerEndpoint.
  destruct (e_marshal env); [destruct (e_post env)|]; simpl;
    repeat split; eexists; reflexivity.
Qed.

(** The world a request leaves, in the four ways the handler can end. *)
Lemma handler_world env r w :
  let w' := (RequestHandler env r w).1 in
  w' = w
  \/ (exists err, w' = log_Printf ("Error interacting with Redis: " ++ err) w)
  \/ exists id,
       parseID (query_id r) = Ok id
       /\ (w' = set_redis (<[request_key id := marker (e_now env)]> (w_redis w)) w
           \/ w' = (triggerEndpoint env (query_endpoint r)
                      (set_redis (<[request_key id := marker (e_now env)]>
                                    (w_redis w)) w)).1).
Proof.
  cbv zeta. unfold RequestHandler.
  destruct (String.eqb (query_id r) ""); [left; reflexivity|].
  destruct (parseID (query_id r)) as [id|]; [|left; reflexivity].
  destruct (e_setnx env) as [err|].
  { rewrite track_fault. right. left. exists err. reflexivity. }
  destruct (redis.lookup_live (e_now env) (request_key id) (w_redis w))
    as [e|] eqn:Hl.
  { rewrite (track_seen _ _ _ _ Hl). left. reflexivity. }
  rewrite (track_new _ _ _ Hl). right. right. exists id.
  split; [reflexivity|].
  destruct (negb (String.eqb (query_endpoint r) "")); [|left; reflexivity].
  right. destruct (triggerEndpoint _ _ _) as [w2 [e|]]; reflexivity.
Qed.

(** X4: serving a request never touches the Kafka queue, the log file or the
    mutex, writes at most one line to the process log, and leaves every key
    of the store other than the key of its own identifier as it was. *)
Theorem handler_touches_only_its_key env r w :
  let w' := (RequestHandler env r w).1 in
  w_kafka w' = w_kafka w
  /\ w_file w' = w_file w
  /\ w_mutex w' = w_mutex w
  /\ (exists lines, w_log w' = (w_log w ++ lines)%list /\ (length lines <= 1)%nat)
  /\ forall key,
       (forall id, parseID (query_id r) = Ok id -> key <> request_key id) ->
       w_redis w' !! key = w_redis w !! key.
Proof.
  cbv zeta.
  assert (Hkeys : forall key,
             (forall id, parseID (query_id r) = Ok id -> key <> request_key id) ->
             w_redis (RequestHandler env r w).1 !! key = w_redis w !! key).
  { intros key Hkey. rewrite handler_redis.
    destruct (parseID (query_id r)) as [id|]; [|reflexivity].
    apply track_other_key. apply Hkey. reflexivity. }
  destruct (handler_world env r w) as [H|[[err H]|(id & _ & [H|H])]];
    cbv zeta in H; rewrite H in *; clear H.
  - repeat split; try exact Hkeys.
    exists []. rewrite app_nil_r. split; [reflexivity | simpl; lia].
  - repeat split; try exact Hkeys.
    eexists. split; [reflexivity | simpl; lia].
  - repeat split; try exact Hkeys.
    exists []. rewrite app_nil_r. split; [reflexivity | simpl; lia].
  - destruct (trigger_frame env (query_endpoint r)
                (set_redis (<[request_key id:=marker (e_now env)]> (w_redis w)) w))
      as (_ & Hk & Hf & Hm & line & Hlog).
    repeat split; try assumption.
    exists [line]. split; [exact Hlog | simpl; lia].
Qed.

(** What a call answers depends on nothing but the entry of its key. *)
Lemma track_result_local f now id w w' :
  w_redis w !! request_key id = w_redis w' !! request_key id ->
  (trackUniqueRequest f now id w).2 = (trackUniqueRequest f now id w').2.
Proof.
  intros H. destruct f as [err|]; [reflexivity|].
  assert (Hl : redis.lookup_live now (request_key id) (w_redis w)
               = redis.lookup_live now (request_key id) (w_redis w'))
    by (unfold redis.lookup_live; rewrite H; reflexivity).
  destruct (redis.lookup_live now (request_key id) (w_redis w')) as [e|] eqn:Hl'.
  - rewrite (track_seen _ _ _ _ Hl), (track_seen _ _ _ _ Hl'). reflexivity.
  - rewrite (track_new _ _ _ Hl), (track_new _ _ _ Hl'). reflexivity.
Qed.

Lemma handler_reply_local env r w w' :
  (forall id, parseID (query_id r) = Ok id ->
              w_redis w !! request_key id = w_redis w' !! request_key id) ->
  (RequestHandler env r w).2 = (RequestHandler env r w').2.
Proof.
  intros H. pose proof (handler_reply env r w) as H1.
  pose proof (handler_reply env r w') as H2. cbv zeta in H1, H2.
  destruct (parseID (query_id r)) as [id|]; [|congruence].
  rewrite (track_result_local _ _ _ w w' (H id eq_refl)) in H1.
  destruct (trackUniqueRequest (e_setnx env) (e_now env) id w').2 as [[|]|];
    congruence.
Qed.

(** X5: the reply to a request and what the request does to the store depend
    on the store alone: a handler never waits for the mutex of the
    aggregator, and neither the sinks nor the process log influence it. *)
Theorem handler_depends_on_store_only env r w w' :
  w_redis w = w_redis w' ->
  (RequestHandler env r w).2 = (RequestHandler env r w').2
  /\ w_redis (RequestHandler env r w).1 = w_redis (RequestHandler env r w').1.
Proof.
  intros H. split.
  - apply handler_reply_local. intros id _. rewrite H. reflexivity.
  - apply map_eq. intros key. apply handler_local. rewrite H. reflexivity.
Qed.

Lemma handler_depends_on_store_only_witness :
  w_redis w_shared = w_redis (set_mutex true w_shared)
  /\ (RequestHandler (calm 7) (submit "9") (set_mutex true w_shared)).2
     = reply_of Accepted.
Proof.
  split; [reflexivity|].
  destruct (handler_depends_on_store_only (calm 7) (submit "9")
              w_shared (set_mutex true w_shared) eq_refl) as [H _].
  rewrite <- H. reflexivity.
Defined.

(** X6: the reply tells what happened to the store.  After a 200 the
    identifier was not tracked before and is now recorded with a full minute
    to live, and no notification failed; after a 409 the identifier was
    tracked and the world is as it was. *)
Theorem reply_tells_the_store env r w :
  (status (RequestHandler env r w).2 = StatusOK ->
   exists id,
     parseID (query_id r) = Ok id
     /\ redis.lookup_live (e_now env) (request_key id) (w_redis w) = None
     /\ w_redis (RequestHandler env r w).1 !! request_key id
        = Some (marker (e_now env))
     /\ notification_fails env r = false)
  /\ (status (RequestHandler env r w).2 = StatusConflict ->
      exists id e,
        parseID (query_id r) = Ok id
        /\ redis.lookup_live (e_now env) (request_key id) (w_redis w) = Some e
        /\ (RequestHandler env r w).1 = w).
Proof.
  pose proof (handler_reply env r w) as Hr. cbv zeta in Hr.
  pose proof (handler_redis env r w) as Hd.
  destruct (parseID (query_id r)) as [id|] eqn:Hid;
    [|rewrite Hr; split; discriminate].
  destruct (e_setnx env) as [err|] eqn:Hf.
  { rewrite track_fault in Hr. simpl in Hr. rewrite Hr. split; discriminate. }
  destruct (redis.lookup_live (e_now env) (request_key id) (w_redis w))
    as [e|] eqn:Hl.
  - rewrite (track_seen _ _ _ _ Hl) in Hr. simpl in Hr. rewrite Hr.
    split; [discriminate|]. intros _. exists id, e.
    split; [reflexivity|]. split; [exact Hl|].
    rewrite (duplicate_reply_world env r w id e Hid Hf Hl). reflexivity.
  - rewrite (track_new _ _ _ Hl) in Hr, Hd. simpl in Hr, Hd. rewrite Hr.
    destruct (notification_fails env r); split; try discriminate.
    intros _. exists id. split; [reflexivity|]. split; [exact Hl|].
    split; [|reflexivity]. rewrite Hd. apply lookup_insert_eq.
Qed.

Lemma reply_tells_the_store_witness :
  status (RequestHandler (calm 3) (submit "11") w_shared).2 = StatusOK
  /\ exists id,
       parseID "11" = Ok id
       /\ w_redis (RequestHandler (calm 3) (submit "11") w_shared).1
            !! request_key id
          = Some (marker 3).
Proof.
  split; [reflexivity|].
  destruct (proj1 (reply_tells_the_store (calm 3) (submit "11") w_shared) eq_refl)
    as (id & H1 & _ & H3 & _).
  exists id. split; [exact H1 | exact H3].
Defined.


Lemma marker_expired now t : now + 60 * 1000 < t -> redis.live t (marker now) = false.
Proof. intros H. unfold redis.live, marker. simpl. apply Z.leb_gt. lia. Qed.

Lemma lookup_live_expired now key d e :
  d !! key = Some e -> redis.live now e = false ->
  redis.lookup_live now key d = None.
Proof. intros Hd He. unfold redis.lookup_live. rewrite Hd, He. reflexivity. Qed.

(** X7: once the minute of an accepted identifier is over, the next call for
    it returns true again and starts a new minute, whatever calls were made
    during the first one: duplicates in between did not prolong it. *)
Theorem accepted_again_after_expiry id t0 w calls t :
  redis.lookup_live t0 (request_key id) (w_redis w) = None ->
  (forall f now, (f, now, id) ∈ calls -> now < t0 + Minute / Millisecond) ->
  t0 + Minute / Millisecond < t ->
  let w1 := track_all calls (trackUniqueRequest None t0 id w).1 in
  trackUniqueRequest None t id w1
  = (set_redis (<[request_key id := marker t]> (w_redis w1)) w1, Ok true).
Proof.
  intros Hnew Hcalls Ht. cbv zeta. apply track_new.
  apply (lookup_live_expired _ _ _ (marker t0)); [|apply marker_expired; exact Ht].
  apply track_all_keeps_marker; [|exact Hcalls].
  rewrite (track_new _ _ _ Hnew). simpl. apply lookup_insert_eq.
Qed.

Lemma accepted_again_after_expiry_witness :
  redis.lookup_live 0 (request_key 7) (w_redis w0) = None
  /\ (trackUniqueRequest None 60001 7
        (track_all [(None, 59000, 7); (None, 59999, 7)]
           (trackUniqueRequest None 0 7 w0).1)).2
     = Ok true.
Proof.
  assert (H : redis.lookup_live 0 (request_key 7) (w_redis w0) = None)
    by reflexivity.
  split; [exact H|].
  rewrite (accepted_again_after_expiry 7 0 w0
             [(None, 59000, 7); (None, 59999, 7)] 60001 H); [reflexivity| |reflexivity].
  intros f now Hin. set_unfold in Hin.
  destruct Hin as [[= -> ->]|[[= -> ->]|[]]]; reflexivity.
Defined.

(** X8: requests for different identifiers do not influence each other: the
    reply to one is the same whether or not the other was served first, and
    the store ends up the same in either order. *)
Theorem different_identifiers_are_independent env r env' r' w id id' :
  parseID (query_id r) = Ok id ->
  parseID (query_id r') = Ok id' ->
  id <> id' ->
  (RequestHandler env r (RequestHandler env' r' w).1).2
  = (RequestHandler env r w).2
  /\ w_redis (RequestHandler env r (RequestHandler env' r' w).1).1
     = w_redis (RequestHandler env' r' (RequestHandler env r w).1).1.
Proof.
  intros Hid Hid' Hne.
  assert (Hk : request_key id <> request_key id')
    by (intros E; apply request_key_inj in E; contradiction).
  assert (Hother : forall env1 r1 id1 w1 key,
             parseID (query_id r1) = Ok id1 -> key <> request_key id1 ->
             w_redis (RequestHandler env1 r1 w1).1 !! key = w_redis w1 !! key).
  { intros env1 r1 id1 w1 key H1 Hkey. rewrite handler_redis, H1.
    apply track_other_key. exact Hkey. }
  split.
  - apply handler_reply_local. intros id1 H1.
    assert (id1 = id) as -> by congruence.
    apply (Hother env' r' id'); [exact Hid' | exact Hk].
  - apply map_eq. intros key.
    destruct (decide (key = request_key id)) as [->|Hn1].
    + rewrite (Hother env' r' id' (RequestHandler env r w).1) by auto.
      apply handler_local. apply (Hother env' r' id'); auto.
    + rewrite (Hother env r id (RequestHandler env' r' w).1) by auto.
      symmetry. apply handler_local. apply (Hother env r id); auto.
Qed.

Lemma different_identifiers_are_independent_witness :
  parseID "5" = Ok 5 /\ parseID "6" = Ok 6
  /\ (RequestHandler (calm 100) (submit "5")
        (RequestHandler (calm 50) (submit "6") w_shared).1).2
     = reply_of Duplicate.
Proof.
  split; [reflexivity|]. split; [reflexivity|].
  destruct (different_identifiers_are_independent (calm 100) (submit "5")
              (calm 50) (submit "6") w_shared 5 6 eq_refl eq_refl) as [H _];
    [discriminate|].
  rewrite H. reflexivity.
Defined.

End HandlerProperties.

(** * Further properties of the validator *)

Section ValidatorProperties.

(** X9: an identifier the validator returns fits [int], is the number its
    text denotes, and is read back unchanged from the text under which it is
    stored in the key. *)
Theorem parseID_value_fits s v :
  parseID s = Ok v ->
  minInt <= v <= maxInt
  /\ decimal_integer s = Some v
  /\ parseID (fmt_d v) = Ok v.
Proof.
  intros H. pose proof (Atoi_decimal s) as Hs. unfold parseID in H.
  rewrite H in Hs.
  destruct (decimal_integer s) as [v'|]; [|discriminate].
  destruct (in_int_range v') eqn:Hr; [|discriminate].
  injection Hs as <-.
  split; [|split; [reflexivity | apply parseID_fmt_d; exact Hr]].
  unfold in_int_range in Hr. apply andb_true_iff in Hr as [H1 H2].
  apply Z.leb_le in H1, H2. auto.
Qed.

Lemma parseID_value_fits_witness :
  parseID "-0042" = Ok (-42)
  /\ minInt <= -42 <= maxInt
  /\ parseID (fmt_d (-42)) = Ok (-42).
Proof.
  split; [reflexivity|].
  destruct (parseID_value_fits "-0042" (-42) eq_refl) as (H1 & _ & H3).
  split; [exact H1 | exact H3].
Defined.

Lemma parseID_Ok_iff s v :
  parseID s = Ok v <-> decimal_integer s = Some v /\ in_int_range v = true.
Proof.
  pose proof (Atoi_decimal s) as Hs. unfold parseID. split.
  - intros H. rewrite H in Hs.
    destruct (decimal_integer s) as [v'|]; [|discriminate].
    destruct (in_int_range v') eqn:Hr; [|discriminate].
    injection Hs as <-. auto.
  - intros [H Hr]. rewrite H, Hr in Hs. exact Hs.
Qed.

(** X10: a plus sign or a zero in front of a number changes nothing: the
    validator returns an identifier for the longer text exactly when it
    returns it for the digits alone, so that both spellings share one key. *)
Theorem parseID_ignores_plus_and_zero ds v :
  ds <> "" -> all_digits ds = true ->
  (parseID (String "+" ds) = Ok v <-> parseID ds = Ok v)
  /\ (parseID (String "0" ds) = Ok v <-> parseID ds = Ok v).
Proof.
  intros Hne Hd.
  assert (H0 : decimal_integer ds = Some (digits_value ds 0))
    by (apply decimal_integer_digits; assumption).
  assert (Hp : decimal_integer (String "+" ds) = Some (digits_value ds 0)).
  { rewrite decimal_integer_unfold. cbv zeta.
    change (Ascii.eqb "+" "-") with false. change (Ascii.eqb "+" "+") with true.
    simpl orb. cbv match.
    destruct (String.eqb_spec ds ""); [congruence|]. rewrite Hd. reflexivity. }
  assert (Hz : decimal_integer (String "0" ds) = Some (digits_value ds 0)).
  { rewrite decimal_integer_digits; [reflexivity | discriminate |].
    simpl. exact Hd. }
  rewrite !parseID_Ok_iff, H0, Hp, Hz. tauto.
Qed.

Lemma parseID_ignores_plus_and_zero_witness :
  all_digits "17" = true
  /\ parseID (String "+" "17") = Ok 17
  /\ parseID (String "0" "17") = Ok 17.
Proof.
  split; [reflexivity|].
  destruct (parseID_ignores_plus_and_zero "17" 17) as [[_ H1] [_ H2]];
    [discriminate | reflexivity|].
  split; [apply H1 | apply H2]; reflexivity.
Defined.

End ValidatorProperties.

(** * Further properties of the aggregator *)

Section AggregatorProperties.

Implicit Types (d : gmap string redis.entry) (w : World).

(** The process log of a cycle whose enumeration succeeds. *)
Lemma cycle_ok_log env w w' :
  w_mutex w = false -> t_keys env = None -> cycle env w = Some w' ->
  let n := Z.of_nat (length (redis.keys (t_now env) tracked_pattern (w_redis w))) in
  w_log w'
  = (w_log w
     ++ [("Sending unique request count to Kafka: " ++ fmt_d n)%string]
     ++ match t_produce env with
        | Some err => [("Error sending message to Kafka: " ++ err)%string]
        | None => []
        end
     ++ match t_write env with
        | Some err => [("Error writing to log file: " ++ err)%string]
        | None => []
        end)%list.
Proof.
  intros Hm Hk. cbv zeta. unfold cycle. rewrite Hm. simpl w_redis.
  unfold Keys. rewrite Hk.
  destruct (t_produce env) as [e1|], (t_write env) as [e2|]; simpl;
    intros [= <-]; simpl; rewrite <- ?app_assoc; reflexivity.
Qed.

(** Every cycle that ends was entered with the mutex free and leaves it
    free. *)
Lemma cycle_Some_mutex env w w' :
  cycle env w = Some w' -> w_mutex w = false /\ w_mutex w' = false.
Proof.
  intros H. destruct (w_mutex w) eqn:Hm.
  { unfold cycle in H. rewrite Hm in H. discriminate. }
  split; [reflexivity|].
  destruct (t_keys env) as [err|] eqn:Hk.
  - rewrite (cycle_skipped env w err Hm Hk) in H. injection H as <-. exact Hm.
  - destruct (cycle_ok env w Hm Hk) as (w2 & Hc & _ & _ & _ & Hm').
    congruence.
Qed.

(** The store after a cycle: the snapshot keys whose [Del] went through are
    gone, everything else is as before. *)
Lemma cycle_store env w w' key :
  cycle env w = Some w' ->
  w_redis w' !! key
  = if decide (t_keys env = None
               /\ key ∈ redis.keys (t_now env) tracked_pattern (w_redis w)
               /\ t_del env key = None)
    then None else w_redis w !! key.
Proof.
  intros H. destruct (cycle_Some_mutex env w w' H) as [Hm _].
  destruct (t_keys env) as [err|] eqn:Hk.
  - rewrite (cycle_skipped env w err Hm Hk) in H. injection H as <-.
    rewrite decide_False by (intros [? _]; discriminate). reflexivity.
  - destruct (cycle_ok env w Hm Hk) as (w2 & Hc & Hr & _).
    assert (w2 = w') as -> by congruence.
    rewrite Hr, cleanup_lookup.
    destruct (decide (key ∈ redis.keys (t_now env) tracked_pattern (w_redis w)
                      /\ t_del env key = None)) as [Hd|Hd].
    + rewrite decide_True by tauto. reflexivity.
    + rewrite decide_False by tauto. reflexivity.
Qed.

Lemma loop_runs ticks : forall w,
  w_mutex w = false ->
  exists w', LogUniqueRequests ticks w = Some w' /\ w_mutex w' = false.
Proof.
  induction ticks as [|env ticks IH]; intros w Hm.
  - exists w. split; [reflexivity | exact Hm].
  - simpl. destruct (cycle env w) as [w1|] eqn:Hc.
    + apply IH. apply (cycle_Some_mutex env w w1 Hc).
    + exfalso. exact (cycle_runs env w Hm Hc).
Qed.

(** X11: the aggregator never blocks on its own mutex: from a state in which
    the mutex is free, the loop gets through any number of ticks, whatever
    fails during them, and leaves the mutex free. *)
Theorem aggregator_never_blocks ticks w :
  w_mutex w = false ->
  exists w', LogUniqueRequests ticks w = Some w' /\ w_mutex w' = false.
Proof. exact (loop_runs ticks w). Qed.

Lemma aggregator_never_blocks_witness :
  w_mutex w_shared = false
  /\ exists w',
       LogUniqueRequests [keys_down 60000; kafka_down 120000; quiet_tick 180000]
         w_shared = Some w'
       /\ w_mutex w' = false.
Proof.
  split; [reflexivity|].
  exact (aggregator_never_blocks
           [keys_down 60000; kafka_down 120000; quiet_tick 180000]
           w_shared eq_refl).
Defined.

Lemma string_app_nil_r (a : string) : (a ++ "")%string = a.
Proof.
  induction a as [|x a IH]; [reflexivity|].
  change (String x (a ++ "")%string = String x a). congruence.
Qed.

Lemma cycle_appends env w w' :
  cycle env w = Some w' ->
  (exists msgs, w_kafka w' = (w_kafka w ++ msgs)%list /\ (length msgs <= 1)%nat)
  /\ (exists text, w_file w' = (w_file w ++ text)%string).
Proof.
  intros H. destruct (cycle_Some_mutex env w w' H) as [Hm _].
  destruct (t_keys env) as [err|] eqn:Hk.
  - rewrite (cycle_skipped env w err Hm Hk) in H. injection H as <-. simpl. split.
    + exists []. rewrite app_nil_r. split; [reflexivity | simpl; lia].
    + exists ""%string. rewrite string_app_nil_r. reflexivity.
  - destruct (cycle_ok env w Hm Hk) as (w2 & Hc & _ & Hka & Hfi & _).
    assert (w2 = w') as -> by congruence. split.
    + destruct (t_produce env); rewrite Hka.
      * exists []. rewrite app_nil_r. split; [reflexivity | simpl; lia].
      * eexists. split; [reflexivity | simpl; lia].
    + destruct (t_write env); rewrite Hfi.
      * exists ""%string. rewrite string_app_nil_r. reflexivity.
      * eexists. reflexivity.
Qed.

Lemma string_app_assoc (a b c : string) : ((a ++ b) ++ c = a ++ (b ++ c))%string.
Proof.
  induction a as [|x a IH]; [reflexivity|].
  change (String x ((a ++ b) ++ c)%string = String x (a ++ (b ++ c))%string).
  congruence.
Qed.

(** X12: the aggregator only appends and only deletes: after any number of
    ticks the Kafka queue is the old one followed by at most one message per
    tick, the log file is the old one followed by more text, and every entry
    of the store was there before, unchanged. *)
Theorem aggregator_appends_and_deletes ticks w w' :
  LogUniqueRequests ticks w = Some w' ->
  (exists msgs, w_kafka w' = (w_kafka w ++ msgs)%list
                /\ (length msgs <= length ticks)%nat)
  /\ (exists text, w_file w' = (w_file w ++ text)%string)
  /\ forall key e, w_redis w' !! key = Some e -> w_redis w !! key = Some e.
Proof.
  revert w. induction ticks as [|env ticks IH]; intros w H.
  - injection H as <-. split; [|split].
    + exists []. rewrite app_nil_r. split; [reflexivity | simpl; lia].
    + exists ""%string. rewrite string_app_nil_r. reflexivity.
    + auto.
  - simpl in H. destruct (cycle env w) as [w1|] eqn:Hc; [|discriminate].
    destruct (IH w1 H) as ((msgs & Hka & Hlen) & (text & Hfi) & Hst).
    destruct (cycle_appends env w w1 Hc) as ((msgs1 & Hka1 & Hlen1) & (text1 & Hfi1)).
    split; [|split].
    + exists (msgs1 ++ msgs)%list. rewrite Hka, Hka1, app_assoc.
      split; [reflexivity|]. rewrite length_app. simpl. lia.
    + exists (text1 ++ text)%string. rewrite Hfi, Hfi1. apply string_app_assoc.
    + intros key e He. apply Hst in He.
      rewrite (cycle_store env w w1 key Hc) in He.
      destruct (decide _); [discriminate | exact He].
Qed.

Lemma aggregator_appends_and_deletes_witness :
  exists w',
    LogUniqueRequests [kafka_down 1000; quiet_tick 2000] w_shared = Some w'
    /\ (exists msgs, w_kafka w' = (w_kafka w_shared ++ msgs)%list
                     /\ (length msgs <= 2)%nat)
    /\ forall key e, w_redis w' !! key = Some e -> w_redis w_shared !! key = Some e.
Proof.
  destruct (loop_runs [kafka_down 1000; quiet_tick 2000]
              w_shared eq_refl) as (w' & H & _).
  exists w'. split; [exact H|].
  destruct (aggregator_appends_and_deletes _ _ _ H) as (H1 & _ & H3).
  split; [exact H1 | exact H3].
Defined.


Lemma live_earlier t now e : t <= now -> redis.live now e = true -> redis.live t e = true.
Proof.
  unfold redis.live. destruct (redis.expire_at e); [|auto].
  intros Ht H. apply Z.leb_le in H. apply Z.leb_le. lia.
Qed.

Lemma drained_keys T d now :
  drained_at T d -> T <= now -> redis.keys now tracked_pattern d = [].
Proof.
  intros Hd Hnow. apply elem_of_nil_inv. intros key Hin.
  apply elem_of_keys in Hin as (e & He & Hlive & Hglob).
  pose proof (live_earlier T now e Hnow Hlive) as Hl.
  rewrite (Hd key e He Hglob) in Hl. discriminate.
Qed.

Lemma clean_cycle_drains env w w' :
  cycle env w = Some w' -> t_keys env = None ->
  (forall key, t_del env key = None) ->
  drained_at (t_now env) (w_redis w').
Proof.
  intros Hc Hk Hdel key e He Hglob.
  rewrite (cycle_store env w w' key Hc) in He.
  destruct (decide _) as [|Hn]; [discriminate|].
  destruct (redis.live (t_now env) e) eqn:Hl; [|reflexivity].
  exfalso. apply Hn. split; [exact Hk|]. split; [|apply Hdel].
  apply elem_of_keys. exists e. auto.
Qed.

(** Where an entry found after a run comes from: it was there before and
    the loop did not delete its key, or a request served during the run
    recorded it. *)
Lemma run_entries evs : forall w key e,
  (forall f k, Deleted f k ∈ evs -> f = None) ->
  w_redis (run evs w).1 !! key = Some e ->
  (w_redis w !! key = Some e /\ key ∉ deleted_keys evs)
  \/ recorded_by evs key e.
Proof.
  induction evs as [|[env r|f k] evs IH]; intros w key e Hok He.
  - left. split; [exact He | apply not_elem_of_nil].
  - rewrite run_cons, step_served in He.
    destruct (IH _ key e (fun f k H => Hok f k (list_elem_of_further _ _ _ H)) He)
      as [[Hw Hnot]|(env' & r' & id & Hin & Hid & Hk & Hm)].
    2: { right. exists env', r', id. split; [right; exact Hin | auto]. }
    rewrite handler_redis in Hw.
    destruct (parseID (query_id r)) as [id|] eqn:Hid; [|left; auto].
    destruct (decide (key = request_key id)) as [->|Hne];
      [|rewrite track_other_key in Hw by exact Hne; left; auto].
    destruct (e_setnx env) as [err|]; [left; auto|].
    destruct (redis.lookup_live (e_now env) (request_key id) (w_redis w))
      as [e0|] eqn:Hl.
    + rewrite (track_seen _ _ _ _ Hl) in Hw. left. auto.
    + rewrite (track_new _ _ _ Hl) in Hw. simpl in Hw.
      rewrite lookup_insert_eq in Hw. injection Hw as <-.
      right. exists env, r, id. split; [left | auto].
  - rewrite run_cons in He.
    assert (f = None) as -> by (apply (Hok f k); left).
    destruct (IH _ key e (fun f k H => Hok f k (list_elem_of_further _ _ _ H)) He)
      as [[Hw Hnot]|(env' & r' & id & Hin & Hid & Hk & Hm)].
    2: { right. exists env', r', id. split; [right; exact Hin | auto]. }
    left. simpl in Hw. unfold redis.del in Hw.
    destruct (decide (key = k)) as [->|Hne];
      [rewrite lookup_delete_eq in Hw; discriminate|].
    rewrite lookup_delete_ne in Hw by congruence.
    split; [exact Hw|]. cbn [deleted_keys].
    apply not_elem_of_cons. split; assumption.
Qed.

(** X13: after the delete loop of a cycle whose deletions all succeed,
    whatever requests were served while it ran, every tracked key that is
    live from the snapshot on was recorded by one of those requests; with no
    request served during the loop, no tracked key is live and every
    identifier submitted next is found new. *)
Theorem clean_cycle_resets_window w T evs now :
  deleted_keys evs = redis.keys T tracked_pattern (w_redis w) ->
  (forall f k, Deleted f k ∈ evs -> f = None) ->
  T <= now ->
  (forall key e,
      w_redis (run evs w).1 !! key = Some e ->
      redis.glob tracked_pattern key = true ->
      redis.live now e = true ->
      recorded_by evs key e)
  /\ ((forall env r, Served env r ∉ evs) ->
      redis.keys now tracked_pattern (w_redis (run evs w).1) = []
      /\ forall id, (trackUniqueRequest None now id (run evs w).1).2 = Ok true).
Proof.
  intros Hdel Hok Hnow.
  assert (Hrec : forall key e,
             w_redis (run evs w).1 !! key = Some e ->
             redis.glob tracked_pattern key = true ->
             redis.live now e = true ->
             recorded_by evs key e).
  { intros key e He Hglob Hlive.
    destruct (run_entries evs w key e Hok He) as [[Hw Hnot]|H]; [|exact H].
    exfalso. apply Hnot. rewrite Hdel. apply elem_of_keys.
    exists e. split; [exact Hw|]. split; [|exact Hglob].
    apply (live_earlier T now e Hnow Hlive). }
  split; [exact Hrec|]. intros Hnone.
  assert (Hdead : forall key e,
             w_redis (run evs w).1 !! key = Some e ->
             redis.glob tracked_pattern key = true ->
             redis.live now e = false).
  { intros key e He Hglob. destruct (redis.live now e) eqn:Hl; [|reflexivity].
    destruct (Hrec key e He Hglob Hl) as (env & r & _ & Hin & _).
    exfalso. exact (Hnone env r Hin). }
  split.
  - apply elem_of_nil_inv. intros key Hin.
    apply elem_of_keys in Hin as (e & He & Hlive & Hglob).
    rewrite (Hdead key e He Hglob) in Hlive. discriminate.
  - intros id. rewrite track_new; [reflexivity|].
    unfold redis.lookup_live.
    destruct (w_redis (run evs w).1 !! request_key id) as [e|] eqn:He;
      [|reflexivity].
    rewrite (Hdead _ e He (request_key_tracked id)). reflexivity.
Qed.

Lemma clean_cycle_resets_window_witness :
  deleted_keys cleanup_with_requests
  = redis.keys 1000 tracked_pattern (w_redis w_shared)
  /\ w_redis (run cleanup_with_requests w_shared).1 !! "request_id:5"
     = Some (marker 1002)
  /\ recorded_by cleanup_with_requests "request_id:5" (marker 1002).
Proof.
  split; [reflexivity|]. split; [reflexivity|].
  destruct (clean_cycle_resets_window w_shared 1000 cleanup_with_requests 2000)
    as [H _].
  - reflexivity.
  - intros f k Hin. unfold cleanup_with_requests in Hin. set_unfold in Hin.
    destruct Hin as [[=]|[[= -> ->]|[[=]|[]]]]. reflexivity.
  - lia.
  - apply H; reflexivity.
Defined.

Lemma quiet_cycle_on_drained T env w :
  w_mutex w = false -> quiet env -> T <= t_now env ->
  drained_at T (w_redis w) ->
  exists w',
    cycle env w = Some w'
    /\ w_redis w' = w_redis w
    /\ w_mutex w' = false
    /\ w_file w' = (w_file w ++ report_lines [0])%string
    /\ w_kafka w'
       = (w_kafka w ++ [{| topic := kafkaTopic; payload := report_text 0 |}])%list.
Proof.
  intros Hm (Hk & Hp & Hw & Hdel) HT Hd.
  destruct (cycle_ok env w Hm Hk) as (w' & Hc & Hr & Hka & Hfi & Hm').
  cbv zeta in *. rewrite (drained_keys _ _ _ Hd HT) in *.
  rewrite Hp in Hka. rewrite Hw in Hfi.
  exists w'. split; [exact Hc|]. split; [exact Hr|]. split; [exact Hm'|].
  split; [|exact Hka]. rewrite Hfi. simpl report_lines.
  rewrite string_app_nil_r. reflexivity.
Qed.

Lemma idle_ticks T ticks : forall w,
  w_mutex w = false -> drained_at T (w_redis w) ->
  (forall env, env ∈ ticks -> quiet env /\ T <= t_now env) ->
  exists w',
    LogUniqueRequests ticks w = Some w'
    /\ w_file w' = (w_file w ++ report_lines (replicate (length ticks) 0))%string
    /\ length (w_kafka w') = (length (w_kafka w) + length ticks)%nat.
Proof.
  induction ticks as [|env ticks IH]; intros w Hm Hd Hq.
  - exists w. split; [reflexivity|]. simpl.
    rewrite string_app_nil_r. split; [reflexivity | lia].
  - destruct (Hq env) as [Hquiet HT]; [left|].
    destruct (quiet_cycle_on_drained T env w Hm Hquiet HT Hd)
      as (w1 & Hc & Hr & Hm1 & Hfi & Hka).
    destruct (IH w1 Hm1) as (w' & Hl & Hfi' & Hka').
    { rewrite Hr. exact Hd. }
    { intros env' Hin. apply Hq. right. exact Hin. }
    exists w'. simpl LogUniqueRequests. rewrite Hc.
    split; [exact Hl|]. split.
    + rewrite Hfi', Hfi. simpl. rewrite !string_app_assoc. reflexivity.
    + rewrite Hka', Hka, length_app. simpl. lia.
Qed.

(** X14: when nothing is submitted, the ticks that follow a clean cycle each
    report zero: after a cycle that counted [n] keys and [k] more ticks, all
    without failures, the log file has grown by the line for [n] followed by
    [k] lines for 0, and the producer has received one message per tick. *)
Theorem idle_ticks_report_zero env ticks w :
  w_mutex w = false ->
  quiet env ->
  (forall next, next ∈ ticks -> quiet next /\ t_now env <= t_now next) ->
  let n := Z.of_nat (length (redis.keys (t_now env) tracked_pattern (w_redis w))) in
  exists w',
    LogUniqueRequests (env :: ticks) w = Some w'
    /\ w_file w'
       = (w_file w ++ report_lines (n :: replicate (length ticks) 0))%string
    /\ length (w_kafka w') = (length (w_kafka w) + S (length ticks))%nat.
Proof.
  intros Hm Hquiet Hticks. cbv zeta.
  destruct Hquiet as (Hk & Hp & Hw & Hdel).
  destruct (cycle_ok env w Hm Hk) as (w1 & Hc & _ & Hka & Hfi & Hm1).
  cbv zeta in *. rewrite Hp in Hka. rewrite Hw in Hfi.
  destruct (idle_ticks (t_now env) ticks w1 Hm1
              (clean_cycle_drains env w w1 Hc Hk Hdel) Hticks)
    as (w' & Hl & Hfi' & Hka').
  exists w'. simpl LogUniqueRequests. rewrite Hc.
  split; [exact Hl|]. split.
  - rewrite Hfi', Hfi. simpl. rewrite !string_app_assoc. reflexivity.
  - rewrite Hka', Hka, length_app. simpl. lia.
Qed.

Lemma idle_ticks_report_zero_witness :
  quiet (quiet_tick 60000)
  /\ exists w',
       LogUniqueRequests [quiet_tick 60000; quiet_tick 120000; quiet_tick 180000]
         w_shared = Some w'
       /\ w_file w' = report_lines [1; 0; 0].
Proof.
  assert (Hq : forall t, quiet (quiet_tick t)) by (intros t; repeat split).
  split; [apply Hq|].
  destruct (idle_ticks_report_zero (quiet_tick 60000)
              [quiet_tick 120000; quiet_tick 180000] w_shared eq_refl (Hq _))
    as (w' & H1 & H2 & _).
  - intros next Hin. set_unfold in Hin.
    destruct Hin as [->|[->|[]]]; (split; [apply Hq | simpl; lia]).
  - exists w'. split; [exact H1|]. rewrite H2. reflexivity.
Defined.

(** A key that matches the pattern of the service starts with its prefix. *)
Lemma glob_prefix p : forall s,
  no_star p = true -> redis.glob (p ++ "*") s = true ->
  exists rest, s = (p ++ rest)%string.
Proof.
  induction p as [|c p IH]; intros s Hp H.
  - exists s. reflexivity.
  - simpl in Hp. apply andb_true_iff in Hp as [Hc Hp].
    apply negb_true_iff in Hc.
    change (redis.glob (String c (p ++ "*")) s = true) in H.
    simpl in H. rewrite Hc in H.
    destruct s as [|d s]; [discriminate|].
    apply andb_true_iff in H as [Hcd H]. apply Ascii.eqb_eq in Hcd. subst d.
    destruct (IH s Hp H) as [rest ->]. exists rest. reflexivity.
Qed.

(** X15: the aggregator deletes nothing but keys of the service: a key that
    does not start with ["request_id:"] is the same after any number of
    ticks. *)
Theorem aggregator_spares_foreign_keys ticks w w' key :
  LogUniqueRequests ticks w = Some w' ->
  (forall rest, key <> ("request_id:" ++ rest)%string) ->
  w_redis w' !! key = w_redis w !! key.
Proof.
  intros H Hkey. revert w H.
  induction ticks as [|env ticks IH]; intros w H.
  - injection H as <-. reflexivity.
  - simpl in H. destruct (cycle env w) as [w1|] eqn:Hc; [|discriminate].
    rewrite (IH w1 H), (cycle_store env w w1 key Hc).
    destruct (decide _) as [(_ & Hin & _)|]; [|reflexivity].
    apply elem_of_keys in Hin as (e & _ & _ & Hglob).
    destruct (glob_prefix "request_id:" key eq_refl Hglob) as [rest ->].
    exfalso. exact (Hkey rest eq_refl).
Qed.

Lemma aggregator_spares_foreign_keys_witness :
  exists w',
    LogUniqueRequests [quiet_tick 1000; quiet_tick 2000] w_shared = Some w'
    /\ w_redis w' !! "session:abc"
       = Some {| redis.value := "x"; redis.expire_at := None |}.
Proof.
  destruct (loop_runs [quiet_tick 1000; quiet_tick 2000]
              w_shared eq_refl) as (w' & H & _).
  exists w'. split; [exact H|].
  rewrite (aggregator_spares_foreign_keys _ _ _ "session:abc" H); [reflexivity|].
  intros rest. discriminate.
Defined.

(** X16: a message the producer refuses is lost: the failure is logged, the
    queue stays as it was and nothing is retried, while the same cycle still
    writes its line to the log file and deletes the keys it counted. *)
Theorem refused_message_is_lost env w err :
  w_mutex w = false ->
  t_keys env = None ->
  t_produce env = Some err ->
  let keys := redis.keys (t_now env) tracked_pattern (w_redis w) in
  exists w',
    cycle env w = Some w'
    /\ w_kafka w' = w_kafka w
    /\ ("Error sending message to Kafka: " ++ err)%string ∈ w_log w'
    /\ (t_write env = None ->
        w_file w'
        = (w_file w ++ report_lines [Z.of_nat (length keys)])%string)
    /\ forall key,
         key ∈ keys -> t_del env key = None -> w_redis w' !! key = None.
Proof.
  intros Hm Hk Hp. cbv zeta.
  destruct (cycle_ok env w Hm Hk) as (w' & Hc & Hr & Hka & Hfi & _).
  cbv zeta in *. exists w'. split; [exact Hc|].
  rewrite Hp in Hka. split; [exact Hka|]. split; [|split].
  - rewrite (cycle_ok_log env w w' Hm Hk Hc), Hp.
    apply elem_of_app. right. right. left.
  - intros Hw. rewrite Hw in Hfi. rewrite Hfi. simpl.
    rewrite string_app_nil_r. reflexivity.
  - intros key Hin Hdel. rewrite Hr, cleanup_lookup.
    rewrite decide_True by auto. reflexivity.
Qed.

Lemma refused_message_is_lost_witness :
  t_produce (kafka_down 1000) = Some "Local: Queue full"
  /\ exists w',
       cycle (kafka_down 1000) w_shared = Some w'
       /\ w_kafka w' = []
       /\ w_file w' = report_lines [1]
       /\ w_redis w' !! "request_id:5" = None.
Proof.
  split; [reflexivity|].
  destruct (refused_message_is_lost (kafka_down 1000) w_shared
              "Local: Queue full" eq_refl eq_refl eq_refl)
    as (w' & H1 & H2 & _ & H4 & H5).
  exists w'. split; [exact H1|]. split; [exact H2|]. split.
  - rewrite (H4 eq_refl). reflexivity.
  - apply H5; [|reflexivity]. vm_compute. left.
Defined.

(** X17: when every [Del] goes through, what the clean-up loop leaves does
    not depend on the order in which the server lists the keys, nor on a key
    being listed twice, and running the loop again on the same keys changes
    nothing more. *)
Theorem cleanup_order_irrelevant f keys keys' d :
  (forall key, key ∈ keys -> f key = None) ->
  (forall key, key ∈ keys <-> key ∈ keys') ->
  cleanup f keys d = cleanup f keys' d
  /\ cleanup f keys (cleanup f keys' d) = cleanup f keys d
  /\ forall key, cleanup f keys d !! key
                 = if decide (key ∈ keys) then None else d !! key.
Proof.
  intros Hf H.
  assert (Hl : forall l, (forall key, key ∈ l <-> key ∈ keys) ->
               forall d' key, cleanup f l d' !! key
                              = if decide (key ∈ keys) then None else d' !! key).
  { intros l Hlk d' key. rewrite cleanup_lookup.
    destruct (decide (key ∈ keys)) as [Hin|Hn].
    - rewrite decide_True; [reflexivity|].
      split; [apply Hlk; exact Hin | apply Hf; exact Hin].
    - rewrite decide_False; [reflexivity|]. intros [Hin _]. apply Hn, Hlk, Hin. }
  split; [|split].
  - apply map_eq. intros key.
    rewrite (Hl keys (fun _ => reflexivity _)).
    rewrite (Hl keys' (fun k => symmetry (H k))). reflexivity.
  - apply map_eq. intros key.
    rewrite !(Hl keys (fun _ => reflexivity _)).
    rewrite (Hl keys' (fun k => symmetry (H k))).
    destruct (decide (key ∈ keys)); reflexivity.
  - intros key. apply (Hl keys (fun _ => reflexivity _)).
Qed.

Lemma cleanup_order_irrelevant_witness :
  cleanup (fun _ => None) ["request_id:5"; "session:abc"] (w_redis w_shared)
  = cleanup (fun _ => None) ["session:abc"; "request_id:5"; "session:abc"]
      (w_redis w_shared).
Proof.
  apply (cleanup_order_irrelevant (fun _ => None)
           ["request_id:5"; "session:abc"]
           ["session:abc"; "request_id:5"; "session:abc"] (w_redis w_shared)).
  - intros key _. reflexivity.
  - intros key. set_unfold. tauto.
Defined.

End AggregatorProperties.

(** * Concurrent submissions of one identifier *)

Section ConcurrentSubmissions.

Lemma serve_replies_cons env r reqs w :
  serve_replies ((env, r) :: reqs) w
  = (RequestHandler env r w).2 :: serve_replies reqs (RequestHandler env r w).1.
Proof.
  unfold serve_replies. simpl.
  destruct (RequestHandler env r w) as [w1 resp]. simpl.
  destruct (run _ w1). reflexivity.
Qed.

Lemma serve_replies_duplicates id t0 reqs : forall w,
  w_redis w !! request_key id = Some (marker t0) ->
  (forall er, er ∈ reqs ->
     parseID (query_id er.2) = Ok id /\ e_setnx er.1 = None
     /\ e_now er.1 < t0 + 60 * 1000) ->
  serve_replies reqs w = replicate (length reqs) (reply_of Duplicate).
Proof.
  induction reqs as [|[env r] reqs IH]; intros w Hm Hreqs; [reflexivity|].
  destruct (Hreqs (env, r)) as (Hid & Hf & Hnow); [left|]. simpl in Hid, Hf, Hnow.
  rewrite serve_replies_cons.
  rewrite (duplicate_reply_world env r w id (marker t0) Hid Hf).
  - simpl. f_equal. apply IH; [exact Hm|].
    intros er Hin. apply Hreqs. right. exact Hin.
  - apply lookup_live_Some. split; [exact Hm|]. apply marker_live. exact Hnow.
Qed.

(** C7, amended: whatever the order in which [N] submissions of one
    identifier reach the store within one window, exactly one of them, the
    first to arrive, has its [trackUniqueRequest] return true, and the other
    [N - 1] get false and are answered Duplicate; the one is answered
    Accepted, unless it carries an endpoint whose notification fails, in
    which case it is answered internal error. *)
Theorem one_new_among_concurrent id w subs order :
  subs <> [] ->
  (forall er, er ∈ subs ->
     parseID (query_id er.2) = Ok id /\ e_setnx er.1 = None) ->
  (forall er, er ∈ subs ->
     redis.lookup_live (e_now er.1) (request_key id) (w_redis w) = None) ->
  (forall er er', er ∈ subs -> er' ∈ subs ->
     e_now er'.1 < e_now er.1 + Minute / Millisecond) ->
  order ≡ₚ subs ->
  track_results (calls_of id order) w
  = Ok true :: replicate (length subs - 1) (Ok false)
  /\ exists first rest,
       order = first :: rest
       /\ serve_replies order w
          = (if notification_fails first.1 first.2 then reply_of StoreError
             else reply_of Accepted)
            :: replicate (length subs - 1) (reply_of Duplicate).
Proof.
  intros Hne Hsame Hnew Hwin Hperm. split.
  - rewrite <- (length_fmap (fun er => (e_setnx er.1, e_now er.1, id)) subs).
    apply (track_results_one_true id w (calls_of id subs)).
    + destruct subs; [congruence | discriminate].
    + intros c Hin. apply list_elem_of_fmap in Hin as (er & -> & Hin).
      split; [apply (Hsame er Hin) | reflexivity].
    + intros c Hin. apply list_elem_of_fmap in Hin as (er & -> & Hin).
      apply (Hnew er Hin).
    + intros c c' Hin Hin'.
      apply list_elem_of_fmap in Hin as (er & -> & Hin).
      apply list_elem_of_fmap in Hin' as (er' & -> & Hin').
      apply (Hwin er er' Hin Hin').
    + unfold calls_of. apply fmap_Permutation. exact Hperm.
  - destruct order as [|[env r] rest].
    { apply Permutation_nil_l in Hperm. congruence. }
    exists (env, r), rest. split; [reflexivity|].
    assert (Hin0 : (env, r) ∈ subs) by (rewrite <- Hperm; left).
    destruct (Hsame _ Hin0) as [Hid Hf]. simpl in Hid, Hf.
    pose proof (Hnew _ Hin0) as Hl. simpl in Hl.
    rewrite <- (Permutation_length Hperm). simpl length.
    replace (S (length rest) - 1)%nat with (length rest) by lia.
    rewrite serve_replies_cons. f_equal.
    + pose proof (handler_reply env r w) as H. cbv zeta in H.
      rewrite Hid, Hf, (track_new _ _ _ Hl) in H. exact H.
    + apply (serve_replies_duplicates id (e_now env)).
      * rewrite handler_redis, Hid, Hf, (track_new _ _ _ Hl). simpl.
        apply lookup_insert_eq.
      * intros er Hin.
        assert (Her : er ∈ subs) by (rewrite <- Hperm; right; exact Hin).
        destruct (Hsame _ Her) as [Hid' Hf'].
        split; [exact Hid'|]. split; [exact Hf'|].
        apply (Hwin (env, r) er Hin0 Her).
Qed.

Lemma one_new_among_concurrent_witness :
  three_submissions_arrival ≡ₚ three_submissions
  /\ track_results (calls_of 42 three_submissions_arrival) w0
     = [Ok true; Ok false; Ok false]
  /\ exists first rest,
       three_submissions_arrival = first :: rest
       /\ serve_replies three_submissions_arrival w0
          = [if notification_fails first.1 first.2 then reply_of StoreError
             else reply_of Accepted;
             reply_of Duplicate; reply_of Duplicate].
Proof.
  assert (Hp : three_submissions_arrival ≡ₚ three_submissions).
  { unfold three_submissions_arrival, three_submissions.
    etransitivity; [apply perm_skip, Permutation_swap|].
    apply Permutation_swap. }
  split; [exact Hp|].
  apply (one_new_among_concurrent 42 w0 three_submissions).
  - discriminate.
  - intros er Hin. unfold three_submissions in Hin. set_unfold in Hin.
    destruct Hin as [->|[->|[->|[]]]]; split; reflexivity.
  - intros er Hin. unfold three_submissions in Hin. set_unfold in Hin.
    destruct Hin as [->|[->|[->|[]]]]; reflexivity.
  - intros er er' Hin Hin'. unfold three_submissions in Hin, Hin'.
    set_unfold in Hin. set_unfold in Hin'.
    destruct Hin as [->|[->|[->|[]]]];
      destruct Hin' as [->|[->|[->|[]]]]; reflexivity.
  - exact Hp.
Defined.

(** C7, as stated, fails: of three submissions of identifier 42 within one
    window, the first to arrive carries an endpoint that cannot be reached;
    it is answered internal error and the other two Duplicate, so that no
    submission receives Accepted. *)
Lemma one_new_among_concurrent_counterexample :
  serve_replies three_submissions_arrival w0
  = [reply_of StoreError; reply_of Duplicate; reply_of Duplicate]
  /\ reply_of Accepted ∉ serve_replies three_submissions_arrival w0.
Proof.
  assert (H : serve_replies three_submissions_arrival w0
              = [reply_of StoreError; reply_of Duplicate; reply_of Duplicate])
    by reflexivity.
  split; [exact H|]. rewrite H. intros Hin. set_unfold in Hin.
  destruct Hin as [Hin|[Hin|[Hin|[]]]]; discriminate Hin.
Qed.

End ConcurrentSubmissions.
